(** * ematrix: a shallow embedding of the swirl animation and its properties

    The repository holds two variants of one C program: [src/ematrix.c]
    (one colour mode, 120 fps) and a second file (two colour modes, 200 fps).
    Both are embedded here once, over a switch [variant].

    The C type [float] is an interface ([FloatOps]) with two instances:
    - [Binary32]: IEEE-754 single precision, built on [SpecFloat] with
      [prec = 24], [emax = 128]; the three libm functions the program calls
      ([expf], [cosf], [sinf]) are a parameter ([Libm]);
    - [Exact]: the same operations over the real numbers, with every
      literal keeping the value its binary32 rounding has.
    libc and ncurses are an interface too ([World]), with a scripted
    instance ([SimWorld]) for concrete runs; the calls that write to the
    terminal are recorded in a trace. [while (1)] runs on fuel. *)

From Stdlib Require Import ZArith QArith List String Ascii Bool Lia Lra.
From Stdlib Require Import Reals Machin.
From Stdlib Require Import Floats.SpecFloat.
Import ListNotations.

#[local] Open Scope Z_scope.

(** ** C [int] *)

Module CInt.

(** Two's complement wrap-around to 32 bits. *)
Definition wrap (z : Z) : Z := (z + 2 ^ 31) mod 2 ^ 32 - 2 ^ 31.

Definition sub (a b : Z) : Z := wrap (a - b).
Definition mul (a b : Z) : Z := wrap (a * b).
(** [/] and [%] of C truncate towards zero. *)
Definition div (a b : Z) : Z := wrap (Z.quot a b).
Definition rem (a b : Z) : Z := Z.rem a b.
(** The logical negation [!x]. *)
Definition lnot (x : Z) : Z := if x =? 0 then 1 else 0.
(** A C condition: non-zero is true. *)
Definition truth (x : Z) : bool := negb (x =? 0).

End CInt.

(** ** The [float] interface *)

Class FloatOps : Type := {
  F : Type;
  (** a decimal literal with suffix [f] *)
  lit : Q -> F;
  (** the conversion [(float) n] of an integer *)
  of_int : Z -> F;
  fadd : F -> F -> F;
  fsub : F -> F -> F;
  fmul : F -> F -> F;
  fdiv : F -> F -> F;
  fneg : F -> F;
  flt : F -> F -> bool;
  sqrtf : F -> F;
  fabsf : F -> F;
  fminf : F -> F -> F;
  fmodf : F -> F -> F;
  floorf : F -> F;
  expf : F -> F;
  cosf : F -> F;
  sinf : F -> F;
  (** [lroundf], a [long] *)
  lroundf : F -> Z;
  (** the conversion [(int) x], truncating *)
  to_int : F -> Z
}.

Declare Scope cfloat_scope.
Delimit Scope cfloat_scope with fl.
Infix "+" := fadd : cfloat_scope.
Infix "-" := fsub : cfloat_scope.
Infix "*" := fmul : cfloat_scope.
Infix "/" := fdiv : cfloat_scope.
Notation "- x" := (fneg x) : cfloat_scope.
Infix "<?" := flt : cfloat_scope.
Notation "x >? y" := (flt y x) : cfloat_scope.

(** ** libc and ncurses *)

Class World : Type := {
  world : Type;
  RAND_MAX : Z;
  rand : world -> Z * world;
  srand : Z -> world -> world;
  time : world -> Z;
  (** [clock_gettime(CLOCK_MONOTONIC, &ts)]: [(tv_sec, tv_nsec)] *)
  clock_gettime : world -> (Z * Z) * world;
  getch : world -> Z * world;
  (** [getmaxyx(stdscr, rows, cols)]: [(rows, cols)] *)
  getmaxyx : world -> (Z * Z) * world;
  has_colors : world -> bool;
  COLORS : world -> Z;
  (** whether [calloc(n, size)] returns a non-null pointer *)
  calloc : world -> Z -> bool
}.

Module Curses.

(** Values of [ncurses.h]. *)
Definition COLOR_BLACK := 0.
Definition COLOR_RED := 1.
Definition COLOR_GREEN := 2.
Definition COLOR_YELLOW := 3.
Definition COLOR_BLUE := 4.
Definition COLOR_MAGENTA := 5.
Definition COLOR_CYAN := 6.
Definition COLOR_WHITE := 7.

Inductive attr : Type :=
| COLOR_PAIR (n : Z)
| A_BOLD
| A_DIM
| A_BLINK.

(** The calls that act on the terminal, and [free]. *)
Inductive call : Type :=
| initscr
| noecho
| curs_set (v : Z)
| keypad (on : bool)
| nodelay (on : bool)
| timeout (ms : Z)
| start_color
| use_default_colors
| init_pair (pair fg bg : Z)
| clear
| erase
| attron (a : attr)
| attroff (a : attr)
| mvaddch (y x : Z) (c : ascii)
| refresh
| usleep (us : Z)
| endwin
| free.

End Curses.
Import Curses.

(** ** The data of the program

    The records take the type [T] of [float] as a parameter. *)

(** The process: the world outside, and the calls made so far, oldest
    first. *)
Record proc (world : Type) : Type := {
  env : world;
  screen : list call
}.
Arguments Build_proc {world}.
Arguments env {world}.
Arguments screen {world}.

Record Particle (T : Type) : Type := {
  vx0 : T;      (* initial vector (relative to center) *)
  vy0 : T;
  born : T;     (* birth time (seconds) *)
  ch : ascii    (* character to draw *)
}.
Arguments Build_Particle {T}.
Arguments vx0 {T}.
Arguments vy0 {T}.
Arguments born {T}.
Arguments ch {T}.

(** [float M[2][2]] *)
Record Mat2 (T : Type) : Type := { M00 : T; M01 : T; M10 : T; M11 : T }.
Arguments Build_Mat2 {T}.
Arguments M00 {T}.
Arguments M01 {T}.
Arguments M10 {T}.
Arguments M11 {T}.

(** The locals the loop body computes for one particle; [fx] and [fy]
    are the two arguments of [lroundf], the position before rounding. *)
Record placement (T : Type) : Type := {
  age : T;
  vx : T; vy : T;
  sx : T; sy : T;
  r : T;
  fx : T; fy : T;
  x : Z; y : Z
}.
Arguments Build_placement {T}.
Arguments age {T}.
Arguments vx {T}.
Arguments vy {T}.
Arguments sx {T}.
Arguments sy {T}.
Arguments r {T}.
Arguments fx {T}.
Arguments fy {T}.
Arguments x {T}.
Arguments y {T}.

(** The locals of the second colour mode that decide how a cell is drawn. *)
Record style : Type := {
  pair : Z;
  do_bold : bool;
  do_dim : bool;
  do_blink : bool;
  draw_it : bool
}.

(** What [main] holds across iterations of [while (1)]. The last three
    fields are variables of the file with two colour modes only; in the
    other file nothing reads them. *)
Record loop_state (T : Type) : Type := {
  rows : Z;
  cols : Z;
  N : Z;
  P : list (Particle T);
  BH_PAIR_BASE : Z;
  BH_PAIR_COUNT : Z;
  bh_mode : Z
}.
Arguments Build_loop_state {T}.
Arguments rows {T}.
Arguments cols {T}.
Arguments N {T}.
Arguments P {T}.
Arguments BH_PAIR_BASE {T}.
Arguments BH_PAIR_COUNT {T}.
Arguments bh_mode {T}.

(** How far the loop got. *)
Inductive outcome (T : Type) : Type :=
| Broke (ls : loop_state T)      (* left the loop through [break] *)
| Spinning (ls : loop_state T).  (* still looping when the fuel ran out *)
Arguments Broke {T}.
Arguments Spinning {T}.

(** ** The monad of the process *)

Section Process.

Context {W : World}.

Definition M (A : Type) : Type := proc world -> A * proc world.

Definition ret {A} (a : A) : M A := fun s => (a, s).

Definition bind {A B} (c : M A) (k : A -> M B) : M B :=
  fun s => let (a, s') := c s in k a s'.

Definition emit (c : call) : M unit :=
  fun s => (tt, {| env := env s; screen := screen s ++ [c] |}).

Definition lift {A} (op : world -> A * world) : M A :=
  fun s => let (a, w') := op (env s) in
           (a, {| env := w'; screen := screen s |}).

Definition ask {A} (q : world -> A) : M A := fun s => (q (env s), s).

Definition when (b : bool) (c : M unit) : M unit :=
  if b then c else ret tt.

End Process.

Declare Scope proc_scope.
Delimit Scope proc_scope with proc.
Notation "x <- c ;; k" := (bind c (fun x => k))
  (at level 61, c at next level, right associativity) : proc_scope.
Notation "c ;; k" := (bind c (fun _ => k))
  (at level 61, right associativity) : proc_scope.

(** ** The program *)

(** The two source files: [OneMode] is [src/ematrix.c]; [TwoModes] is the
    file with the second colour mode and the [r]/[R] key. *)
Inductive variant : Type := OneMode | TwoModes.

Section Program.

Context {FO : FloatOps} {W : World}.
Variable v : variant.

#[local] Open Scope proc_scope.

Definition frandf (a b : F) : M F :=
  k <- lift rand ;;
  ret (a + (b - a) * of_int k / of_int RAND_MAX)%fl.

Definition set : string :=
  "0123456789ABCDEFGHIJKLMNOPQRSTUVWXYZabcdefghijklmnopqrstuvwxyz@#$%&*+=-".

Definition strlen (s : string) : Z := Z.of_nat (String.length s).

(** [s[i]]; the byte after the last character is the terminating NUL. *)
Definition char_at (s : string) (i : Z) : ascii :=
  if i <? 0 then zero
  else match String.get (Z.to_nat i) s with
       | Some c => c
       | None => zero
       end.

(** [set[k % (int)strlen(set)]] *)
Definition glyph_of (k : Z) : ascii :=
  char_at set (CInt.rem k (CInt.wrap (strlen set))).

Definition rand_char : M ascii :=
  k <- lift rand ;;
  ret (glyph_of k).

(** Analytic matrix exponential for A = [[-1,-1],[1,0]]. *)
Definition expA (t : F) : Mat2 F :=
  let w := lit 0.8660254037844386 in
  let et := expf (lit (-0.5) * t)%fl in
  let c := cosf (w * t)%fl in
  let s := sinf (w * t)%fl in
  let k := if (fabsf w <? lit 1e-8)%fl then t else (s / w)%fl in
  let B00 := lit (-0.5) in
  let B01 := lit (-1.0) in
  let B10 := lit 1.0 in
  let B11 := lit 0.5 in
  {| M00 := (et * (c + k * B00))%fl;
     M01 := (et * (k * B01))%fl;
     M10 := (et * (k * B10))%fl;
     M11 := (et * (c + k * B11))%fl |}.

Definition now_seconds : M F :=
  ts <- lift clock_gettime ;;
  ret (of_int (fst ts) + of_int (snd ts) * lit 1e-9)%fl.

(** [(float)M_PI] *)
Definition M_PI_f : F := lit 3.14159265358979323846.

(** The outer bound of the spawn ring, as a multiple of [maxr]. *)
Definition outer : F :=
  match v with
  | OneMode => lit 0.95
  | TwoModes => lit 2.95
  end.

Definition center (n : Z) : F := (of_int (CInt.sub n 1) * lit 0.5)%fl.

Definition respawn (p : Particle F) (cols rows : Z) : M (Particle F) :=
  let cx := center cols in
  let cy := center rows in
  let maxr := fminf cx cy in
  r <- frandf (maxr * lit 0.35)%fl (maxr * outer)%fl ;;
  a <- frandf (lit 0.0) (lit 2.0 * M_PI_f)%fl ;;
  t <- now_seconds ;;
  c <- rand_char ;;
  ret {| vx0 := (r * cosf a)%fl;
         vy0 := (r * sinf a)%fl;
         born := t;
         ch := c |}.

(** The constants of [main]. *)
Definition SCALE : F := lit 0.76.
Definition RADIUS_MULT : F := lit 2.0.
Definition X_MULT : F := lit 2.0.
Definition Y_MULT : F := lit 1.0.
Definition SPEED : F := lit 1.35.
Definition MIN_R : F := lit 3.0.
Definition FPS_US : Z :=
  match v with
  | OneMode => 8250
  | TwoModes => 3280
  end.
Definition density : Z :=
  match v with
  | OneMode => 12
  | TwoModes => 20
  end.

Definition place (cols rows : Z) (tnow : F) (p : Particle F) : placement F :=
  let cx := center cols in
  let cy := center rows in
  let age := ((tnow - born p) * SPEED)%fl in
  let m := expA age in
  let vx := (RADIUS_MULT * SCALE * (M00 m * vx0 p + M01 m * vy0 p))%fl in
  let vy := (RADIUS_MULT * SCALE * (M10 m * vx0 p + M11 m * vy0 p))%fl in
  let sx := (X_MULT * vx)%fl in
  let sy := (Y_MULT * vy)%fl in
  {| age := age; vx := vx; vy := vy; sx := sx; sy := sy;
     r := sqrtf (vx * vx + vy * vy)%fl;
     fx := (cx + sx)%fl;
     fy := (cy + sy)%fl;
     x := CInt.wrap (lroundf (cx + sx)%fl);
     y := CInt.wrap (lroundf (cy + sy)%fl) |}.

(** The test of the loop body: too close to center or off-screen. *)
Definition must_respawn (cols rows : Z) (pl : placement F) : bool :=
  (r pl <? MIN_R)%fl || (x pl <? 0) || (x pl >=? cols)
  || (y pl <? 0) || (y pl >=? rows).

(** The "matrix green" drawing: bold once [a] passes 0.66. *)
Definition draw_trail (pl : placement F) (c : ascii) : M unit :=
  let a := fminf (age pl / lit 2.0)%fl (lit 1.0) in
  emit (attron (COLOR_PAIR 1)) ;;
  when (a >? lit 0.66)%fl (emit (attron A_BOLD)) ;;
  emit (mvaddch (y pl) (x pl) c) ;;
  when (a >? lit 0.66)%fl (emit (attroff A_BOLD)) ;;
  emit (attroff (COLOR_PAIR 1)).

(** The "black hole" drawing. *)
Definition draw_disk (BH_PAIR_BASE BH_PAIR_COUNT : Z) (maxr_vis tnow : F)
    (pl : placement F) (c : ascii) : M unit :=
  let shadow_r := (lit 0.18 * maxr_vis)%fl in
  let ring_r := (lit 0.32 * maxr_vis)%fl in
  let ring_w := (lit 0.06 * maxr_vis)%fl in
  let ax := (- vx pl - vy pl)%fl in
  let ay := vx pl in
  let speed := (SPEED * sqrtf (ax * ax + ay * ay))%fl in
  let swirl := (speed / (r pl + lit 1e-3))%fl in
  let swirl_n := fminf (swirl / lit 2.0)%fl (lit 1.0) in
  let heat :=
    fminf (speed / (SPEED * (maxr_vis * lit 2.0) + lit 1e-3))%fl (lit 1.0) in
  let rr := fminf (r pl / (maxr_vis + lit 1e-3))%fl (lit 1.0) in
  let hue :=
    fmodf (lit 0.12 * tnow + lit 0.85 * swirl_n + lit 0.40 * rr
           + lit 0.15 * heat)%fl (lit 1.0) in
  let idx0 := CInt.wrap (to_int (floorf (hue * of_int BH_PAIR_COUNT)%fl)) in
  let idx1 := if idx0 <? 0 then 0 else idx0 in
  let rainbow_idx :=
    if idx1 >=? BH_PAIR_COUNT then BH_PAIR_COUNT - 1 else idx1 in
  let rainbow_pair := BH_PAIR_BASE + rainbow_idx in
  let white_pair := BH_PAIR_BASE + (BH_PAIR_COUNT - 1) in
  let plain := {| pair := rainbow_pair; do_bold := false; do_dim := false;
                  do_blink := false; draw_it := true |} in
  st <-
    (if (r pl <? shadow_r)%fl then
       k <- lift rand ;;
       if negb (Z.land k 3 =? 0) then
         ret {| pair := rainbow_pair; do_bold := false; do_dim := false;
                do_blink := false; draw_it := false |}
       else
         ret {| pair := BH_PAIR_BASE; do_bold := false; do_dim := true;
                do_blink := false; draw_it := true |}
     else
       let ring_thick := (ring_w * (lit 0.6 + lit 0.8 * swirl_n))%fl in
       if (fabsf (r pl - ring_r) <? ring_thick)%fl then
         ret {| pair :=
                  if CInt.truth
                       (Z.land (CInt.wrap (to_int (tnow * lit 14.0)%fl)) 1)
                     || (swirl_n >? lit 0.55)%fl
                  then white_pair else rainbow_pair;
                do_bold := true; do_dim := false;
                do_blink := (swirl_n >? lit 0.75)%fl; draw_it := true |}
       else
         let t := (lit 0.60 * heat + lit 0.40 * swirl_n)%fl in
         st1 <-
           (if (t >? lit 0.85)%fl then
              k <- lift rand ;;
              if CInt.rem k 10 =? 0 then
                ret {| pair := white_pair; do_bold := true; do_dim := false;
                       do_blink := true; draw_it := true |}
              else
                ret {| pair := rainbow_pair; do_bold := true;
                       do_dim := false; do_blink := false; draw_it := true |}
            else if (t >? lit 0.65)%fl then
              ret {| pair := rainbow_pair; do_bold := true; do_dim := false;
                     do_blink := false; draw_it := true |}
            else if (t <? lit 0.25)%fl then
              ret {| pair := rainbow_pair; do_bold := false; do_dim := true;
                     do_blink := false; draw_it := true |}
            else ret plain) ;;
         k <- lift rand ;;
         if Z.land k 127 =? 0 then
           ret {| pair := white_pair; do_bold := true; do_dim := do_dim st1;
                  do_blink := true; draw_it := true |}
         else ret st1) ;;
  when (draw_it st)
    (emit (attron (COLOR_PAIR (pair st))) ;;
     when (do_bold st) (emit (attron A_BOLD)) ;;
     when (do_dim st) (emit (attron A_DIM)) ;;
     when (do_blink st) (emit (attron A_BLINK)) ;;
     emit (mvaddch (y pl) (x pl) c) ;;
     when (do_blink st) (emit (attroff A_BLINK)) ;;
     when (do_dim st) (emit (attroff A_DIM)) ;;
     when (do_bold st) (emit (attroff A_BOLD)) ;;
     emit (attroff (COLOR_PAIR (pair st)))).

End Program.

Section MainLoop.

Context {FO : FloatOps} {W : World}.
Variable v : variant.

#[local] Open Scope proc_scope.

(** [for (int i = 0; i < N; i++) body(&P[i])], over the cells of [P]. *)
Fixpoint for_each (body : Particle F -> M (Particle F)) (P : list (Particle F))
    : M (list (Particle F)) :=
  match P with
  | [] => ret []
  | p :: rest =>
      p' <- body p ;;
      rest' <- for_each body rest ;;
      ret (p' :: rest')
  end.

Definition with_bh_mode (b : Z) (ls : loop_state F) : loop_state F :=
  {| rows := rows ls; cols := cols ls; N := N ls; P := P ls;
     BH_PAIR_BASE := BH_PAIR_BASE ls; BH_PAIR_COUNT := BH_PAIR_COUNT ls;
     bh_mode := b |}.

Definition with_P (P' : list (Particle F)) (ls : loop_state F) : loop_state F :=
  {| rows := rows ls; cols := cols ls; N := N ls; P := P';
     BH_PAIR_BASE := BH_PAIR_BASE ls; BH_PAIR_COUNT := BH_PAIR_COUNT ls;
     bh_mode := bh_mode ls |}.

Definition with_size (newr newc : Z) (ls : loop_state F) : loop_state F :=
  {| rows := newr; cols := newc; N := N ls; P := P ls;
     BH_PAIR_BASE := BH_PAIR_BASE ls; BH_PAIR_COUNT := BH_PAIR_COUNT ls;
     bh_mode := bh_mode ls |}.

Definition key (c : string) : Z :=
  match c with
  | String a _ => Z.of_N (N_of_ascii a)
  | EmptyString => 0
  end.

Definition is_quit (c : Z) : bool := (c =? key "q") || (c =? key "Q").
Definition is_toggle (c : Z) : bool := (c =? key "r") || (c =? key "R").

(** [bh_mode = !bh_mode] *)
Definition toggle (ls : loop_state F) : loop_state F :=
  with_bh_mode (CInt.lnot (bh_mode ls)) ls.

(** The key tests after the quit test; only one file has the second. *)
Definition on_key (c : Z) (ls : loop_state F) : loop_state F :=
  match v with
  | OneMode => ls
  | TwoModes => if is_toggle c then toggle ls else ls
  end.

(** The body of [for (int i = 0; i < N; i++)] inside the frame. *)
Definition step (ls : loop_state F) (maxr_vis tnow : F) (p : Particle F)
    : M (Particle F) :=
  let pl := place (cols ls) (rows ls) tnow p in
  if must_respawn (cols ls) (rows ls) pl then
    respawn v p (cols ls) (rows ls)
  else
    k <- lift rand ;;
    c <- (if CInt.rem k 28 =? 0 then rand_char else ret (ch p)) ;;
    hc <- ask has_colors ;;
    match v with
    | OneMode =>
        if hc then draw_trail pl c else emit (mvaddch (y pl) (x pl) c)
    | TwoModes =>
        if hc then
          if CInt.truth (CInt.lnot (bh_mode ls)) then draw_trail pl c
          else draw_disk (BH_PAIR_BASE ls) (BH_PAIR_COUNT ls)
                 maxr_vis tnow pl c
        else emit (mvaddch (y pl) (x pl) c)
    end ;;
    ret {| vx0 := vx0 p; vy0 := vy0 p; born := born p; ch := c |}.

(** Handle terminal resize. *)
Definition resize (ls : loop_state F) : M (loop_state F) :=
  sz <- lift getmaxyx ;;
  let newr := fst sz in
  let newc := snd sz in
  if negb (newr =? rows ls) || negb (newc =? cols ls) then
    emit clear ;;
    P' <- for_each (fun p => respawn v p newc newr) (P ls) ;;
    ret (with_P P' (with_size newr newc ls))
  else ret ls.

(** Everything of one iteration after the key tests. *)
Definition frame (ls : loop_state F) : M (loop_state F) :=
  ls <- resize ls ;;
  let cx := center (cols ls) in
  let cy := center (rows ls) in
  let maxr_vis := fminf (cx / X_MULT)%fl (cy / Y_MULT)%fl in
  emit erase ;;
  tnow <- now_seconds ;;
  P' <- for_each (step ls maxr_vis tnow) (P ls) ;;
  emit refresh ;;
  emit (usleep (FPS_US v)) ;;
  ret (with_P P' ls).

(** One iteration of [while (1)]: [None] is [break]. *)
Definition tick (ls : loop_state F) : M (option (loop_state F)) :=
  c <- lift getch ;;
  if is_quit c then ret None
  else
    ls' <- frame (on_key c ls) ;;
    ret (Some ls').

Fixpoint while_1 (fuel : nat) (ls : loop_state F) : M (outcome F) :=
  match fuel with
  | O => ret (Spinning ls)
  | S fuel' =>
      o <- tick ls ;;
      match o with
      | None => ret (Broke ls)
      | Some ls' => while_1 fuel' ls'
      end
  end.

(** [for (int i = 0; i < n; i++) init_pair((short)(base + i), pal[i], bg)] *)
Fixpoint init_pairs (base : Z) (pal : list Z) (bg : Z) : M unit :=
  match pal with
  | [] => ret tt
  | c :: rest => emit (init_pair base c bg) ;; init_pairs (base + 1) rest bg
  end.

Definition setup_colors : M unit :=
  hc <- ask has_colors ;;
  when hc
    (emit start_color ;;
     emit use_default_colors ;;
     emit (init_pair 1 COLOR_GREEN (-1)) ;;
     emit (init_pair 2 COLOR_GREEN (-1)) ;;
     emit (init_pair 3 COLOR_GREEN (-1)) ;;
     match v with
     | OneMode => ret tt
     | TwoModes =>
         n <- ask COLORS ;;
         if n >=? 256 then
           init_pairs 20 [21; 51; 46; 226; 202; 196; 201; 93; 231] COLOR_BLACK
         else
           init_pairs 10 [COLOR_BLUE; COLOR_CYAN; COLOR_GREEN; COLOR_YELLOW;
                          COLOR_RED; COLOR_MAGENTA; COLOR_WHITE] COLOR_BLACK
     end).

(** Particle count: tweak for density. *)
Definition swarm_size (rows cols : Z) : Z :=
  let n := CInt.div (CInt.mul rows cols) (density v) in
  if n <? 200 then 200 else n.

(** A cell of [calloc]'s zero-filled block. *)
Definition zero_particle : Particle F :=
  {| vx0 := of_int 0; vy0 := of_int 0; born := of_int 0; ch := zero |}.

(** [main] up to [getmaxyx(stdscr, rows, cols)]: [(rows, cols)]. *)
Definition preamble : M (Z * Z) :=
  t <- ask time ;;
  lift (fun w => (tt, srand (t mod 2 ^ 32) w)) ;;
  emit initscr ;;
  emit noecho ;;
  emit (curs_set 0) ;;
  emit (keypad true) ;;
  emit (nodelay true) ;;
  emit (timeout 0) ;;
  setup_colors ;;
  lift getmaxyx.

(** From the particle count to [while (1)]: [inl code] is [exit(code)].
    The palette layout is computed in the file with two colour modes only;
    it reads the terminal and changes nothing. *)
Definition allocate (sz : Z * Z) : M (Z + loop_state F) :=
  let rows := fst sz in
  let cols := snd sz in
  let N := swarm_size rows cols in
  ok <- ask (fun w => calloc w N) ;;
  if negb ok then
    emit endwin ;;
    ret (inl 1)
  else
    P <- for_each (fun p => respawn v p cols rows)
           (repeat zero_particle (Z.to_nat N)) ;;
    hc <- ask has_colors ;;
    n <- ask COLORS ;;
    let wide := hc && (n >=? 256) in
    ret (inr {| rows := rows; cols := cols; N := N; P := P;
                BH_PAIR_BASE := if wide then 20 else 10;
                BH_PAIR_COUNT := if wide then 9 else 7;
                bh_mode := 0 |}).

Definition startup : M (Z + loop_state F) :=
  sz <- preamble ;;
  allocate sz.

Definition final (o : outcome F) : loop_state F :=
  match o with
  | Broke ls => ls
  | Spinning ls => ls
  end.

(** [main]: the exit status, or [None] while the loop is still running
    when the fuel ran out. *)
Definition main (fuel : nat) : M (option Z) :=
  s <- startup ;;
  match s with
  | inl code => ret (Some code)
  | inr ls =>
      o <- while_1 fuel ls ;;
      match o with
      | Spinning _ => ret None
      | Broke _ =>
          emit free ;;
          emit endwin ;;
          ret (Some 0)
      end
  end.

End MainLoop.

(** ** Instance 1: IEEE-754 binary32 *)

Module B32.

Definition prec : Z := 24.
Definition emax : Z := 128.

Definition float32 : Type := spec_float.

Definition add : float32 -> float32 -> float32 := SFadd prec emax.
Definition sub : float32 -> float32 -> float32 := SFsub prec emax.
Definition mul : float32 -> float32 -> float32 := SFmul prec emax.
Definition div : float32 -> float32 -> float32 := SFdiv prec emax.
Definition sqrt : float32 -> float32 := SFsqrt prec emax.
Definition opp : float32 -> float32 := SFopp.
Definition abs : float32 -> float32 := SFabs.
Definition ltb : float32 -> float32 -> bool := SFltb.
(** [==] of C: the two zeros are equal, a NaN equals nothing. *)
Definition eqb : float32 -> float32 -> bool := SFeqb.

(** A zero or a finite number: neither an infinity nor a NaN. *)
Definition is_finite (x : float32) : bool :=
  match x with
  | S754_zero _ | S754_finite _ _ _ => true
  | _ => false
  end.

(** The integer [n], rounded to nearest even. *)
Definition of_Z (n : Z) : float32 := binary_normalize prec emax n 0 false.

(** The quotient [n / d] of two integers of any size, rounded once. *)
Definition of_Q (q : Q) : float32 :=
  match Qnum q with
  | Z0 => S754_zero false
  | Zpos n => div (S754_finite false n 0) (S754_finite false (Qden q) 0)
  | Zneg n => div (S754_finite true n 0) (S754_finite false (Qden q) 0)
  end.

Definition one : float32 := of_Z 1.

Definition is_nan (x : float32) : bool :=
  match x with
  | S754_nan => true
  | _ => false
  end.

(** [fminf]: a NaN operand is ignored. *)
Definition fmin (x y : float32) : float32 :=
  match SFcompare x y with
  | Some Gt => y
  | Some _ => x
  | None => if is_nan x then y else x
  end.

(** The integer part of [m * 2^e] for [e < 0], and whether bits were lost. *)
Definition shift_right (m : positive) (e : Z) : Z * bool :=
  let d := 2 ^ (- e) in
  (Z.pos m / d, negb (Z.pos m mod d =? 0)).

Definition floor (x : float32) : float32 :=
  match x with
  | S754_finite s m e =>
      if e >=? 0 then x
      else
        let (q, lost) := shift_right m e in
        if s then
          binary_normalize prec emax (- (if lost then q + 1 else q)) 0 true
        else binary_normalize prec emax q 0 false
  | _ => x
  end.

(** The value as an integer, rounded towards zero. *)
Definition trunc (x : float32) : option Z :=
  match x with
  | S754_zero _ => Some 0
  | S754_finite s m e =>
      let a := if e >=? 0 then Z.pos m * 2 ^ e else fst (shift_right m e) in
      Some (if s then - a else a)
  | _ => None
  end.

(** The value as an integer, halfway cases away from zero. *)
Definition round_away (x : float32) : option Z :=
  match x with
  | S754_zero _ => Some 0
  | S754_finite s m e =>
      let a :=
        if e >=? 0 then Z.pos m * 2 ^ e
        else (Z.pos m + 2 ^ (- e - 1)) / 2 ^ (- e) in
      Some (if s then - a else a)
  | _ => None
  end.

(** [lroundf]; for a NaN or an infinity the result is unspecified in C:
    the x86-64 value [LONG_MIN] is taken. *)
Definition lround (x : float32) : Z :=
  match round_away x with
  | Some n => n
  | None => - 2 ^ 63
  end.

(** [(int) x]; for a NaN or an infinity the x86-64 value [INT_MIN]. *)
Definition to_Z (x : float32) : Z :=
  match trunc x with
  | Some n => n
  | None => - 2 ^ 31
  end.

(** [fmodf]: exact, with the sign of [x]. *)
Definition fmod (x y : float32) : float32 :=
  match x, y with
  | S754_nan, _ | _, S754_nan => S754_nan
  | S754_infinity _, _ => S754_nan
  | _, S754_zero _ => S754_nan
  | _, S754_infinity _ => x
  | S754_zero _, _ => x
  | S754_finite sx mx ex, S754_finite _ my ey =>
      let e := Z.min ex ey in
      let X := Z.pos mx * 2 ^ (ex - e) in
      let Y := Z.pos my * 2 ^ (ey - e) in
      let R := Z.rem X Y in
      binary_normalize prec emax (if sx then - R else R) e sx
  end.

(** The three functions of libm the program calls. *)
Record Libm : Type := {
  exp : float32 -> float32;
  cos : float32 -> float32;
  sin : float32 -> float32
}.

(** What C (Annex F) fixes for them at zero. *)
Record AnnexF (L : Libm) : Prop := {
  exp_zero : forall s, exp L (S754_zero s) = one;
  cos_zero : forall s, cos L (S754_zero s) = one;
  sin_zero : forall s, sin L (S754_zero s) = S754_zero s
}.

End B32.

Definition Binary32 (L : B32.Libm) : FloatOps := {|
  F := B32.float32;
  lit := B32.of_Q;
  of_int := B32.of_Z;
  fadd := B32.add;
  fsub := B32.sub;
  fmul := B32.mul;
  fdiv := B32.div;
  fneg := B32.opp;
  flt := B32.ltb;
  sqrtf := B32.sqrt;
  fabsf := B32.abs;
  fminf := B32.fmin;
  fmodf := B32.fmod;
  floorf := B32.floor;
  expf := B32.exp L;
  cosf := B32.cos L;
  sinf := B32.sin L;
  lroundf := B32.lround;
  to_int := B32.to_Z
|}.

(** A small libm, for running the program on concrete inputs: Taylor
    polynomials in binary32 arithmetic after a range reduction. *)
Module RefLibm.
Import B32.

(** [sum_{k < n} x^k / k!], by Horner's rule from the last term. *)
Fixpoint horner_exp (n : nat) (k : Z) (x : float32) : float32 :=
  match n with
  | O => one
  | S n' => add one (mul (div x (of_Z k)) (horner_exp n' (k + 1) x))
  end.

Fixpoint square_times (n : nat) (y : float32) : float32 :=
  match n with
  | O => y
  | S n' => square_times n' (mul y y)
  end.

Definition exp (x : float32) : float32 :=
  match x with
  | S754_nan => S754_nan
  | S754_infinity s => if s then S754_zero false else x
  | S754_zero _ => one
  | S754_finite _ m e =>
      let k := Z.max 0 (Z.pos (digits2_pos m) + e) in
      square_times (Z.to_nat k)
        (horner_exp 12 1 (SFldexp prec emax x (- k)))
  end.

Definition two_pi : float32 := of_Q 6.283185307179586.

(** [sum_k (-1)^k x^(2k) / ((j+1)(j+2)...)], the common shape of both series. *)
Fixpoint horner_trig (n : nat) (j : Z) (x2 : float32) : float32 :=
  match n with
  | O => one
  | S n' =>
      sub one (mul (div x2 (of_Z ((j + 1) * (j + 2))))
                   (horner_trig n' (j + 2) x2))
  end.

Definition cos (x : float32) : float32 :=
  match x with
  | S754_nan | S754_infinity _ => S754_nan
  | S754_zero _ => one
  | S754_finite _ _ _ =>
      let y := fmod x two_pi in
      horner_trig 16 0 (mul y y)
  end.

Definition sin (x : float32) : float32 :=
  match x with
  | S754_nan | S754_infinity _ => S754_nan
  | S754_zero _ => x
  | S754_finite _ _ _ =>
      let y := fmod x two_pi in
      mul y (horner_trig 16 1 (mul y y))
  end.

Definition libm : Libm := {| B32.exp := exp; B32.cos := cos; B32.sin := sin |}.

End RefLibm.

(** ** Instance 2: exact arithmetic over the reals *)

Module ExactR.

#[local] Open Scope R_scope.

(** The real number a binary32 datum stands for. *)
Definition value (x : spec_float) : R :=
  match x with
  | S754_finite s m e =>
      let a :=
        if (e >=? 0)%Z then IZR (Z.pos m * 2 ^ e)
        else IZR (Z.pos m) / IZR (2 ^ (- e)) in
      if s then - a else a
  | _ => 0
  end.

Definition ltb (x y : R) : bool := if Rlt_dec x y then true else false.

Definition trunc (x : R) : Z :=
  if Rle_dec 0 x then Int_part x else (- Int_part (- x))%Z.

Definition lround (x : R) : Z :=
  if Rle_dec 0 x then Int_part (x + / 2) else (- Int_part (- x + / 2))%Z.

Definition fmod (x y : R) : R := x - IZR (trunc (x / y)) * y.

End ExactR.

Definition Exact : FloatOps := {|
  F := R;
  lit := fun q => ExactR.value (B32.of_Q q);
  of_int := IZR;
  fadd := Rplus;
  fsub := Rminus;
  fmul := Rmult;
  fdiv := Rdiv;
  fneg := Ropp;
  flt := ExactR.ltb;
  sqrtf := sqrt;
  fabsf := Rabs;
  fminf := Rmin;
  fmodf := ExactR.fmod;
  floorf := fun x => IZR (Int_part x);
  expf := exp;
  cosf := cos;
  sinf := sin;
  lroundf := ExactR.lround;
  to_int := ExactR.trunc
|}.

(** ** A scripted world, for running the program on concrete inputs *)

Module Sim.

Record sim : Type := {
  seed : Z;                   (* state of the generator *)
  script : list Z;            (* results [rand] returns first, if any *)
  wall : Z;                   (* what [time(NULL)] returns *)
  clock : list (Z * Z);       (* the readings of the monotonic clock *)
  keys : list Z;              (* what [getch] returns, [ERR] when empty *)
  sizes : list (Z * Z);       (* the terminal sizes, [(rows, cols)] *)
  colors : option Z;          (* [COLORS], [None] without colour *)
  memory : bool               (* whether [calloc] succeeds *)
}.

Definition with_rand (s : Z) (sc : list Z) (w : sim) : sim :=
  {| seed := s; script := sc; wall := wall w; clock := clock w;
     keys := keys w; sizes := sizes w; colors := colors w;
     memory := memory w |}.

Definition with_clock (c : list (Z * Z)) (w : sim) : sim :=
  {| seed := seed w; script := script w; wall := wall w; clock := c;
     keys := keys w; sizes := sizes w; colors := colors w;
     memory := memory w |}.

Definition with_keys (k : list Z) (w : sim) : sim :=
  {| seed := seed w; script := script w; wall := wall w; clock := clock w;
     keys := k; sizes := sizes w; colors := colors w; memory := memory w |}.

Definition with_sizes (z : list (Z * Z)) (w : sim) : sim :=
  {| seed := seed w; script := script w; wall := wall w; clock := clock w;
     keys := keys w; sizes := z; colors := colors w; memory := memory w |}.

(** The scripted results first; then the generator of the C standard's
    example. Either way the result is in [0, 32767]. *)
Definition rand (w : sim) : Z * sim :=
  match script w with
  | k :: rest => (k mod 32768, with_rand (seed w) rest w)
  | [] =>
      let next := (seed w * 1103515245 + 12345) mod 2 ^ 32 in
      ((next / 65536) mod 32768, with_rand next [] w)
  end.

Definition srand (s : Z) (w : sim) : sim := with_rand s (script w) w.

(** The last reading stays. *)
Definition clock_gettime (w : sim) : (Z * Z) * sim :=
  match clock w with
  | [] => ((0, 0), w)
  | [t] => (t, w)
  | t :: rest => (t, with_clock rest w)
  end.

Definition getch (w : sim) : Z * sim :=
  match keys w with
  | [] => (-1, w)
  | k :: rest => (k, with_keys rest w)
  end.

(** The last size stays. *)
Definition getmaxyx (w : sim) : (Z * Z) * sim :=
  match sizes w with
  | [] => ((24, 80), w)
  | [s] => (s, w)
  | s :: rest => (s, with_sizes rest w)
  end.

Definition has_colors (w : sim) : bool :=
  match colors w with
  | Some _ => true
  | None => false
  end.

Definition COLORS (w : sim) : Z :=
  match colors w with
  | Some n => n
  | None => 0
  end.

End Sim.

Definition SimWorld : World := {|
  world := Sim.sim;
  RAND_MAX := 32767;
  rand := Sim.rand;
  srand := Sim.srand;
  time := Sim.wall;
  clock_gettime := Sim.clock_gettime;
  getch := Sim.getch;
  getmaxyx := Sim.getmaxyx;
  has_colors := Sim.has_colors;
  COLORS := Sim.COLORS;
  calloc := fun w _ => Sim.memory w
|}.

(** ** Concrete runs *)

Module Scenario.

(** Binary32 arithmetic with the small libm. *)
Definition B : FloatOps := Binary32 RefLibm.libm.

(** An 80x24 colour terminal that is resized to 200x100 before the first
    frame; no key is pressed. *)
Definition resized : Sim.sim :=
  {| Sim.seed := 0; Sim.script := []; Sim.wall := 42; Sim.clock := [(100, 0)];
     Sim.keys := []; Sim.sizes := [(24, 80); (100, 200)];
     Sim.colors := Some 256; Sim.memory := true |}.

(** An 80x24 terminal where [q] is the first key read. *)
Definition quits : Sim.sim :=
  {| Sim.seed := 0; Sim.script := []; Sim.wall := 42; Sim.clock := [(100, 0)];
     Sim.keys := [key "q"]; Sim.sizes := [(24, 80)];
     Sim.colors := Some 8; Sim.memory := true |}.

(** An 80x24 terminal where [r] is pressed once and no memory is left. *)
Definition no_memory : Sim.sim :=
  {| Sim.seed := 0; Sim.script := []; Sim.wall := 42; Sim.clock := [(100, 0)];
     Sim.keys := [key "r"]; Sim.sizes := [(24, 80)];
     Sim.colors := Some 8; Sim.memory := false |}.

(** The same with memory. *)
Definition toggles : Sim.sim :=
  {| Sim.seed := 0; Sim.script := []; Sim.wall := 42; Sim.clock := [(100, 0)];
     Sim.keys := [key "r"]; Sim.sizes := [(24, 80)];
     Sim.colors := Some 8; Sim.memory := true |}.

(** A 200x60 terminal where [rand()] returns [RAND_MAX] and then 0. *)
Definition spawn_edge : Sim.sim :=
  {| Sim.seed := 0; Sim.script := [32767; 0]; Sim.wall := 42;
     Sim.clock := [(100, 0)]; Sim.keys := []; Sim.sizes := [(60, 200)];
     Sim.colors := Some 8; Sim.memory := true |}.

Definition boot (w : Sim.sim) : proc Sim.sim :=
  {| env := w; screen := [] |}.

(** The loop state of an 80x24 terminal with an empty swarm. *)
Definition ls_80x24 : loop_state B32.float32 :=
  {| rows := 24; cols := 80; N := 200; P := [];
     BH_PAIR_BASE := 10; BH_PAIR_COUNT := 7; bh_mode := 0 |}.

(** The state [startup] leaves, when it gets to the loop. *)
Definition started (v : variant) (w : Sim.sim)
    : loop_state B32.float32 * proc Sim.sim :=
  match @startup B SimWorld v (boot w) with
  | (inr ls, s) => (ls, s)
  | (inl _, s) => (ls_80x24, s)
  end.

End Scenario.

(** ** Notions the properties are stated with *)

Section Notions.

Context {FO : FloatOps} {W : World}.




(** The swarm is the same block of [N] cells, and the mode a truth value. *)
Definition swarm_ok (ls : loop_state F) : Prop :=
  Z.of_nat (List.length (P ls)) = N ls /\ (bh_mode ls = 0 \/ bh_mode ls = 1).

(** The swarm's size follows the area of the terminal as it is now. *)
Definition tracks_current_area (v : variant) : Prop :=
  forall (s s0 s' : proc world) (ls0 : loop_state F) (fuel : nat)
         (o : outcome F),
    startup v s = (inr ls0, s0) ->
    while_1 v fuel ls0 s0 = (o, s') ->
    N (final o)
    = Z.max (rows (final o) * cols (final o) / density v) 200.

End Notions.

(** The characters of [set], in order. *)
Definition glyphs : list ascii := list_ascii_of_string set.

(** How many of the results [0 .. n-1] of [rand()] select the glyph [c]. *)
Definition hits (c : ascii) (n : nat) : nat :=
  List.length
    (filter (fun k => Ascii.eqb (glyph_of k) c) (map Z.of_nat (seq 0 n))).

(** ** Notions about the trace

    The shape of what one cell, one frame and the whole run add to the
    trace of calls. *)

(** The calls of one drawn cell: the attributes on, the character, the
    attributes off in the reverse order. *)
Definition bracket (ats : list attr) (y x : Z) (c : ascii) : list call :=
  map attron ats ++ [mvaddch y x c] ++ map attroff (rev ats).

(** The attributes [draw_disk] switches on for a style, in its order. *)
Definition style_attrs (st : style) : list attr :=
  COLOR_PAIR (pair st)
  :: (if do_bold st then [A_BOLD] else [])
  ++ (if do_dim st then [A_DIM] else [])
  ++ (if do_blink st then [A_BLINK] else []).

(** The calls a computation adds to the trace when run from [s]. *)
Definition emitted {W : World} {A : Type} (m : M A) (s : proc world)
    (d : list call) : Prop :=
  screen (snd (m s)) = screen s ++ d.

(** The attributes of a cell are those the program has set up: the colour
    pair is the green pair 1 or a pair of the palette, and a blinking cell
    is bold. *)
Definition attrs_ok {T : Type} (ls : loop_state T) (ats : list attr) : Prop :=
  (forall n, In (COLOR_PAIR n) ats ->
             n = 1
             \/ (1 <= BH_PAIR_COUNT ls ->
                 BH_PAIR_BASE ls <= n
                 <= BH_PAIR_BASE ls + BH_PAIR_COUNT ls - 1))
  /\ (In A_BLINK ats -> In A_BOLD ats).

(** A call that writes a character writes it inside [rows] x [cols]. *)
Definition on_screen (rows cols : Z) (c : call) : Prop :=
  match c with
  | mvaddch y x _ => 0 <= x < cols /\ 0 <= y < rows
  | _ => True
  end.

(** The calls that draw: attributes and characters. *)
Definition drawing (c : call) : Prop :=
  match c with
  | attron _ | attroff _ | mvaddch _ _ _ => True
  | _ => False
  end.

Definition attr_eqb (a b : attr) : bool :=
  match a, b with
  | COLOR_PAIR n, COLOR_PAIR m => n =? m
  | A_BOLD, A_BOLD | A_DIM, A_DIM | A_BLINK, A_BLINK => true
  | _, _ => false
  end.

(** The attributes that are on after the calls [tr], innermost first, when
    [on] were on before; [None] when an [attroff] names another attribute
    than the innermost one that is on. *)
Fixpoint nesting (on : list attr) (tr : list call) : option (list attr) :=
  match tr with
  | [] => Some on
  | attron a :: rest => nesting (a :: on) rest
  | attroff a :: rest =>
      match on with
      | b :: on' => if attr_eqb a b then nesting on' rest else None
      | [] => None
      end
  | _ :: rest => nesting on rest
  end.

(** The number of characters the calls write. *)
Definition writes (tr : list call) : nat :=
  List.length
    (filter (fun c => match c with mvaddch _ _ _ => true | _ => false end) tr).

(** The number of [endwin] among the calls. *)
Definition endwins (tr : list call) : nat :=
  List.length
    (filter (fun c => match c with endwin => true | _ => false end) tr).

(** The characters written are glyphs of [set]. *)
Definition writes_glyphs (tr : list call) : Prop :=
  Forall (fun c => match c with
                   | mvaddch _ _ g => In g glyphs
                   | _ => True
                   end) tr.

(** What the drawing of one frame keeps, for a swarm of at most [n]
    particles on a [rows] x [cols] terminal. *)
Definition tidy (rows cols : Z) (n : nat) (d : list call) : Prop :=
  Forall drawing d
  /\ Forall (on_screen rows cols) d
  /\ (forall on, nesting on d = Some on)
  /\ (writes d <= n)%nat.

(** The particle's glyph is a character of [set]. *)
Definition has_glyph {T : Type} (p : Particle T) : Prop := In (ch p) glyphs.

(** A call that has nothing to do with colours or attributes. *)
Definition plain (c : call) : Prop :=
  match c with
  | start_color | use_default_colors | init_pair _ _ _
  | attron _ | attroff _ => False
  | _ => True
  end.

(** The scripted world on a terminal without colours. *)
Definition MonoWorld : World := {|
  world := Sim.sim;
  RAND_MAX := 32767;
  rand := Sim.rand;
  srand := Sim.srand;
  time := Sim.wall;
  clock_gettime := Sim.clock_gettime;
  getch := Sim.getch;
  getmaxyx := Sim.getmaxyx;
  has_colors := fun _ => false;
  COLORS := fun _ => 0;
  calloc := fun w _ => Sim.memory w
|}.

(** * Properties *)

(** ** The glyph set *)

Lemma get_nth_error (s : string) (n : nat) :
  String.get n s = nth_error (list_ascii_of_string s) n.
Proof.
  revert n; induction s as [|a s IH]; intros [|n]; simpl; auto.
Qed.

Lemma strlen_set : strlen set = 71.
Proof. reflexivity. Qed.

Lemma glyphs_length : List.length glyphs = 71%nat.
Proof. reflexivity. Qed.

Lemma glyphs_NoDup : NoDup glyphs.
Proof.
  assert (H : forall l : list ascii,
             (fix distinct (l : list ascii) : bool :=
                match l with
                | [] => true
                | a :: t => negb (existsb (Ascii.eqb a) t) && distinct t
                end) l = true -> NoDup l).
  { induction l as [|a t IH]; intros E; constructor;
      apply andb_prop in E; destruct E as [E1 E2]; auto.
    intros Hin. apply negb_true_iff in E1.
    assert (X : existsb (Ascii.eqb a) t = true)
      by (apply existsb_exists; exists a; split; auto; apply Ascii.eqb_refl).
    congruence. }
  apply H. vm_compute. reflexivity.
Qed.

Lemma glyph_of_nth (k : Z) :
  0 <= k ->
  nth_error glyphs (Z.to_nat (k mod 71)) = Some (glyph_of k).
Proof.
  intros Hk. unfold glyph_of, char_at, CInt.rem.
  change (CInt.wrap (strlen set)) with 71.
  rewrite Z.rem_mod_nonneg by lia.
  assert (B : 0 <= k mod 71 < 71) by (apply Z.mod_pos_bound; lia).
  destruct (k mod 71 <? 0) eqn:E; [apply Z.ltb_lt in E; lia|].
  rewrite get_nth_error. fold glyphs.
  destruct (nth_error glyphs (Z.to_nat (k mod 71))) eqn:G; auto.
  apply nth_error_None in G. rewrite glyphs_length in G. lia.
Qed.

Lemma glyph_of_eq_iff (k i : Z) :
  0 <= k -> 0 <= i < 71 ->
  glyph_of k = glyph_of i <-> k mod 71 = i.
Proof.
  intros Hk Hi. pose proof (glyph_of_nth k Hk) as A.
  pose proof (glyph_of_nth i (proj1 Hi)) as B.
  rewrite (Z.mod_small i 71) in B by lia.
  assert (Bk : 0 <= k mod 71 < 71) by (apply Z.mod_pos_bound; lia).
  split; intros E.
  - rewrite E in A. rewrite <- B in A.
    apply (proj1 (NoDup_nth_error glyphs) glyphs_NoDup) in A.
    + lia.
    + rewrite glyphs_length. lia.
  - rewrite E in A. congruence.
Qed.

Lemma hits_count (i : Z) (n : nat) :
  0 <= i < 71 ->
  Z.of_nat (hits (glyph_of i) n) = (Z.of_nat n + 70 - i) / 71.
Proof.
  intros Hi. unfold hits. induction n as [|n IH].
  - cbn [seq map filter List.length Z.of_nat]. symmetry.
    apply Z.div_small. lia.
  - rewrite seq_S, map_app, filter_app, length_app, Nat2Z.inj_add, IH.
    cbn [map filter Nat.add].
    destruct (Ascii.eqb (glyph_of (Z.of_nat n)) (glyph_of i)) eqn:E.
    + apply Ascii.eqb_eq in E. apply glyph_of_eq_iff in E; try lia.
      cbn [List.length]. Z.div_mod_to_equations. lia.
    + assert (Z.of_nat n mod 71 <> i).
      { intros X. apply (glyph_of_eq_iff (Z.of_nat n) i) in X; try lia.
        rewrite X, Ascii.eqb_refl in E. discriminate. }
      cbn [List.length]. Z.div_mod_to_equations. lia.
Qed.

Lemma glyph_index (c : ascii) :
  In c glyphs -> exists i, 0 <= i < 71 /\ glyph_of i = c.
Proof.
  intros Hin. apply In_nth_error in Hin. destruct Hin as [n Hn].
  assert (Hlt : (n < 71)%nat).
  { rewrite <- glyphs_length. apply nth_error_Some. congruence. }
  exists (Z.of_nat n). split; [lia|].
  pose proof (glyph_of_nth (Z.of_nat n) ltac:(lia)) as A.
  rewrite Z.mod_small, Nat2Z.id in A by lia. congruence.
Qed.

(** ** The monad, the particle loop and the main loop *)

Ltac run_world :=
  repeat match goal with
         | |- context [rand ?w] => destruct (rand w); cbn [fst snd env screen]
         | |- context [clock_gettime ?w] =>
             destruct (clock_gettime w) as [[? ?] ?]; cbn [fst snd env screen]
         | |- context [getch ?w] => destruct (getch w); cbn [fst snd env screen]
         | |- context [getmaxyx ?w] =>
             destruct (getmaxyx w) as [[? ?] ?]; cbn [fst snd env screen]
         end.

Section Loops.

Context {FO : FloatOps} {W : World}.
Variable v : variant.

Lemma respawn_screen (p : Particle F) (c r : Z) (s : proc world) :
  screen (snd (respawn v p c r s)) = screen s.
Proof.
  unfold respawn, frandf, now_seconds, rand_char, bind, lift, ret.
  run_world. reflexivity.
Qed.


Lemma for_each_length (body : Particle F -> M (Particle F))
    (P0 : list (Particle F)) (s : proc world) :
  List.length (fst (for_each body P0 s)) = List.length P0.
Proof.
  revert s; induction P0 as [|p P0 IH]; intros s; cbn [for_each].
  - reflexivity.
  - unfold bind, ret. destruct (body p s) as [p' s1].
    specialize (IH s1). destruct (for_each body P0 s1) as [P' s2].
    cbn [fst List.length] in *. congruence.
Qed.

Lemma on_key_swarm (c : Z) (ls : loop_state F) :
  swarm_ok ls ->
  swarm_ok (on_key v c ls) /\ N (on_key v c ls) = N ls.
Proof.
  intros [HP Hb]. unfold on_key, toggle, swarm_ok.
  destruct v; [auto|]. destruct (is_toggle c); [|auto].
  cbn [with_bh_mode P N bh_mode]. unfold CInt.lnot.
  destruct (bh_mode ls =? 0); auto.
Qed.

Lemma resize_swarm (ls ls' : loop_state F) (s s' : proc world) :
  resize v ls s = (ls', s') ->
  swarm_ok ls ->
  swarm_ok ls' /\ N ls' = N ls /\ bh_mode ls' = bh_mode ls.
Proof.
  unfold resize, bind, lift. destruct (getmaxyx (env s)) as [[newr newc] w1].
  cbn [fst snd].
  destruct (negb (newr =? rows ls) || negb (newc =? cols ls)).
  - unfold emit, ret.
    match goal with
    | |- context [for_each ?b ?l ?s0] =>
        pose proof (for_each_length b l s0) as L;
        destruct (for_each b l s0) as [P' s2]
    end.
    intros E [HP Hb]; inversion E; subst; clear E.
    unfold swarm_ok. cbn [with_P with_size P N bh_mode fst] in *.
    rewrite L. auto.
  - unfold ret. intros E H; inversion E; subst; auto.
Qed.

Lemma frame_swarm (ls ls' : loop_state F) (s s' : proc world) :
  frame v ls s = (ls', s') ->
  swarm_ok ls ->
  swarm_ok ls' /\ N ls' = N ls /\ bh_mode ls' = bh_mode ls.
Proof.
  unfold frame. unfold bind at 1.
  destruct (resize v ls s) as [ls1 s1] eqn:R.
  intros E H. destruct (resize_swarm _ _ _ _ R H) as ([HP Hb] & HN & HB).
  revert E. unfold now_seconds. unfold bind, emit, lift, ret.
  cbn [env screen].
  destruct (clock_gettime (env s1)) as [[sec nsec] w2]. cbn [fst snd].
  match goal with
  | |- context [for_each ?b ?l ?s0] =>
      pose proof (for_each_length b l s0) as L;
      destruct (for_each b l s0) as [P' s2]
  end.
  intros E; inversion E; subst; clear E.
  unfold swarm_ok. cbn [with_P P N bh_mode fst] in *.
  rewrite L. auto.
Qed.

Lemma tick_swarm (ls ls' : loop_state F) (s s' : proc world) :
  tick v ls s = (Some ls', s') ->
  swarm_ok ls ->
  swarm_ok ls' /\ N ls' = N ls.
Proof.
  unfold tick, bind, lift. destruct (getch (env s)) as [c w1].
  destruct (is_quit c); [unfold ret; discriminate|].
  destruct (frame v (on_key v c ls) _) as [ls1 s1] eqn:Fr.
  unfold ret. intros E H; inversion E; subst; clear E.
  destruct (on_key_swarm c ls H) as [H1 HN].
  destruct (frame_swarm _ _ _ _ Fr H1) as (H2 & HN2 & _).
  split; [assumption | congruence].
Qed.

Lemma while_1_swarm (fuel : nat) (ls : loop_state F) (s s' : proc world)
    (o : outcome F) :
  while_1 v fuel ls s = (o, s') ->
  swarm_ok ls ->
  swarm_ok (final o) /\ N (final o) = N ls.
Proof.
  revert ls s; induction fuel as [|fuel IH]; intros ls s; cbn [while_1].
  - unfold ret. intros E H; inversion E; subst. auto.
  - unfold bind. destruct (tick v ls s) as [[ls1|] s1] eqn:T.
    + intros E H. destruct (tick_swarm _ _ _ _ T H) as [H1 HN].
      destruct (IH _ _ E H1) as [H2 HN2]. split; [assumption | congruence].
    + unfold ret. intros E H; inversion E; subst. auto.
Qed.

Lemma allocate_swarm (sz : Z * Z) (ls : loop_state F) (s s' : proc world) :
  allocate v sz s = (inr ls, s') ->
  swarm_ok ls /\ N ls = swarm_size v (fst sz) (snd sz)
  /\ rows ls = fst sz /\ cols ls = snd sz /\ bh_mode ls = 0.
Proof.
  unfold allocate, bind, ask.
  destruct (negb (calloc (env s) _)); [unfold emit, ret; discriminate|].
  match goal with
  | |- context [for_each ?b ?l ?s0] =>
      pose proof (for_each_length b l s0) as L;
      destruct (for_each b l s0) as [P' s2]
  end.
  unfold ret. intros E; inversion E; subst; clear E.
  unfold swarm_ok. cbn [P N rows cols bh_mode fst] in *.
  rewrite L, repeat_length.
  assert (200 <= swarm_size v (fst sz) (snd sz)).
  { unfold swarm_size.
    destruct (_ <? 200) eqn:E; [lia | apply Z.ltb_ge in E; lia]. }
  repeat split; auto. lia.
Qed.

Lemma swarm_size_min (r c : Z) : 200 <= swarm_size v r c.
Proof.
  unfold swarm_size.
  destruct (_ <? 200) eqn:E; [lia | apply Z.ltb_ge in E; lia].
Qed.

Lemma wrap_small (z : Z) : - 2 ^ 31 <= z < 2 ^ 31 -> CInt.wrap z = z.
Proof.
  intros H. unfold CInt.wrap. rewrite Z.mod_small; lia.
Qed.

Lemma swarm_size_max (r c : Z) :
  0 <= r * c < 2 ^ 31 ->
  swarm_size v r c = Z.max (r * c / density v) 200.
Proof.
  intros H. unfold swarm_size, CInt.div, CInt.mul.
  rewrite (wrap_small (r * c)) by lia.
  assert (D : 0 < density v) by (destruct v; reflexivity).
  rewrite Z.quot_div_nonneg by lia.
  assert (0 <= r * c / density v <= r * c).
  { split; [apply Z.div_pos; lia|].
    apply Z.div_le_upper_bound; [lia|]. nia. }
  rewrite wrap_small by lia.
  destruct (_ <? 200) eqn:E; [apply Z.ltb_lt in E | apply Z.ltb_ge in E]; lia.
Qed.

End Loops.

Section MainProperties.

Context {FO : FloatOps} {W : World}.
Variable v : variant.

Lemma step_respawns (ls : loop_state F) (maxr_vis tnow : F) (p : Particle F) :
  must_respawn (cols ls) (rows ls) (place (cols ls) (rows ls) tnow p) = true ->
  step v ls maxr_vis tnow p = respawn v p (cols ls) (rows ls).
Proof.
  intros H. unfold step. rewrite H. reflexivity.
Qed.

Lemma startup_swarm (s s0 : proc world) (ls0 : loop_state F) :
  startup v s = (inr ls0, s0) ->
  swarm_ok ls0 /\ bh_mode ls0 = 0 /\
  exists sz s1, preamble v s = (sz, s1) /\ allocate v sz s1 = (inr ls0, s0)
                /\ N ls0 = swarm_size v (fst sz) (snd sz).
Proof.
  unfold startup. unfold bind at 1.
  destruct (preamble v s) as [sz s1]. intros E.
  destruct (allocate_swarm v sz ls0 s1 s0 E) as (A & B & _ & _ & C).
  split; [assumption|]. split; [assumption|].
  exists sz, s1. auto.
Qed.

Lemma while_1_more (k n : nat) (ls lk : loop_state F) (s sk : proc world) :
  while_1 v k ls s = (Spinning lk, sk) ->
  while_1 v (k + n) ls s = while_1 v n lk sk.
Proof.
  revert ls s; induction k as [|k IH]; intros ls s; cbn [while_1 Nat.add].
  - unfold ret. intros E; inversion E; reflexivity.
  - unfold bind. destruct (tick v ls s) as [[ls1|] s1].
    + apply IH.
    + unfold ret. discriminate.
Qed.

Lemma init_pairs_screen (pal : list Z) (base bg : Z) (s : proc world) :
  exists more, screen (snd (init_pairs base pal bg s)) = screen s ++ more
               /\ env (snd (init_pairs base pal bg s)) = env s.
Proof.
  revert base s; induction pal as [|c pal IH]; intros base s;
    cbn [init_pairs].
  - exists []. rewrite app_nil_r. auto.
  - unfold bind, emit.
    destruct (IH (base + 1)
                {| env := env s;
                   screen := screen s ++ [init_pair base c bg] |})
      as [more [E1 E2]].
    exists (init_pair base c bg :: more).
    rewrite E1, E2. cbn [screen env]. rewrite <- app_assoc. auto.
Qed.

Lemma setup_colors_screen (s : proc world) :
  exists more, screen (snd (setup_colors v s)) = screen s ++ more.
Proof.
  unfold setup_colors, bind, ask, when.
  destruct (has_colors (env s)).
  - unfold emit at 1 2 3 4 5. cbn [env screen].
    destruct v.
    + unfold ret. cbn [snd screen]. eexists.
      repeat rewrite <- app_assoc. reflexivity.
    + match goal with
      | |- context [if ?c then _ else _] => destruct c
      end;
      match goal with
      | |- context [init_pairs ?b ?l ?g ?s0] =>
          destruct (init_pairs_screen l b g s0) as [more [E _]]
      end; rewrite E; cbn [screen]; eexists;
      repeat rewrite <- app_assoc; reflexivity.
  - unfold ret. exists []. rewrite app_nil_r. reflexivity.
Qed.

Lemma preamble_screen (s : proc world) :
  exists more,
    screen (snd (preamble v s))
    = screen s ++ [initscr; noecho; curs_set 0; keypad true; nodelay true;
                   timeout 0] ++ more.
Proof.
  unfold preamble. unfold bind. unfold ask, lift at 1.
  unfold emit. cbn [env screen].
  match goal with
  | |- context [setup_colors v ?s0] =>
      destruct (setup_colors_screen s0) as [more E];
      destruct (setup_colors v s0) as [[] s1]
  end.
  unfold lift. destruct (getmaxyx (env s1)) as [sz w1].
  cbn [snd screen] in *. rewrite E. exists more.
  repeat rewrite <- app_assoc. reflexivity.
Qed.

End MainProperties.



(** C7, as stated: the swarm's size would be [max(rows*cols/12, 200)] of the
    terminal as it is now. After a resize from 80x24 to 200x100 the swarm
    still has the 200 cells of the 80x24 terminal, not 1666. *)
Lemma C7_size_does_not_follow_resize :
  ~ @tracks_current_area Scenario.B SimWorld OneMode.
Proof.
  intros H.
  specialize
    (H (Scenario.boot Scenario.resized)
       (snd (Scenario.started OneMode Scenario.resized))
       (snd (@while_1 Scenario.B SimWorld OneMode 1
               (fst (Scenario.started OneMode Scenario.resized))
               (snd (Scenario.started OneMode Scenario.resized))))
       (fst (Scenario.started OneMode Scenario.resized))
       1%nat
       (fst (@while_1 Scenario.B SimWorld OneMode 1
               (fst (Scenario.started OneMode Scenario.resized))
               (snd (Scenario.started OneMode Scenario.resized))))).
  assert (E1 : @startup Scenario.B SimWorld OneMode
                 (Scenario.boot Scenario.resized)
               = (inr (fst (Scenario.started OneMode Scenario.resized)),
                  snd (Scenario.started OneMode Scenario.resized)))
    by (vm_compute; reflexivity).
  specialize (H E1 (surjective_pairing _)).
  revert H. vm_compute. discriminate.
Qed.

(** C7, amended: the swarm's size is [max(rows*cols/12, 200)]
    ([max(rows*cols/20, 200)] in the other variant) of the terminal size read
    at startup, at least 200, and it stays that for the whole run, resizes
    included: a resize respawns the particles and keeps their number. *)
Theorem C7_swarm_size_fixed_at_startup :
  forall (FO : FloatOps) (W : World) (v : variant) (s s1 s0 s' : proc world)
         (sz : Z * Z) (ls0 : loop_state F) (fuel : nat) (o : outcome F),
    preamble v s = (sz, s1) ->
    allocate v sz s1 = (inr ls0, s0) ->
    while_1 v fuel ls0 s0 = (o, s') ->
    N (final o) = swarm_size v (fst sz) (snd sz)
    /\ Z.of_nat (List.length (P (final o))) = N (final o)
    /\ 200 <= N (final o)
    /\ (0 <= fst sz * snd sz < 2 ^ 31 ->
        N (final o) = Z.max (fst sz * snd sz / density v) 200).
Proof.
  intros FO W v s s1 s0 s' sz ls0 fuel o _ A L.
  destruct (allocate_swarm v sz ls0 s1 s0 A) as (Ok & HN & _).
  destruct (while_1_swarm v fuel ls0 s0 s' o L Ok) as [[HP _] HN'].
  rewrite HN' , HN. repeat split.
  - rewrite HP. congruence.
  - apply swarm_size_min.
  - apply swarm_size_max.
Qed.

Lemma C7_swarm_size_fixed_at_startup_witness :
  let st := Scenario.started OneMode Scenario.resized in
  let o := fst (@while_1 Scenario.B SimWorld OneMode 1 (fst st) (snd st)) in
  N (final o) = 200 /\ rows (final o) = 100 /\ cols (final o) = 200.
Proof.
  intros st o.
  pose proof
    (C7_swarm_size_fixed_at_startup Scenario.B SimWorld OneMode
       (Scenario.boot Scenario.resized)
       (snd (@preamble SimWorld OneMode (Scenario.boot Scenario.resized)))
       (snd st)
       (snd (@while_1 Scenario.B SimWorld OneMode 1 (fst st) (snd st)))
       (fst (@preamble SimWorld OneMode (Scenario.boot Scenario.resized)))
       (fst st) 1%nat o
       (surjective_pairing _)
       ltac:(vm_compute; reflexivity)
       (surjective_pairing _)) as (A & _).
  split; [rewrite A; vm_compute; reflexivity|].
  split; vm_compute; reflexivity.
Defined.

(** C8. When [calloc] returns no block, [main] calls [endwin] on the
    terminal it opened with [initscr] and then exits with status 1; when the
    key read at the top of an iteration is [q] or [Q], [main] leaves the
    loop, frees the swarm, calls [endwin] and returns 0. *)
Theorem C8_exit_codes :
  forall (FO : FloatOps) (W : World) (v : variant),
    (forall (s s1 : proc world) (sz : Z * Z) (fuel : nat),
        preamble v s = (sz, s1) ->
        calloc (env s1) (swarm_size v (fst sz) (snd sz)) = false ->
        main v fuel s
        = (Some 1, {| env := env s1; screen := screen s1 ++ [endwin] |})
        /\ exists more,
            screen s1
            = screen s ++ [initscr; noecho; curs_set 0; keypad true;
                           nodelay true; timeout 0] ++ more)
    /\
    (forall (s s0 sk : proc world) (ls0 lk : loop_state F) (k fuel : nat),
        startup v s = (inr ls0, s0) ->
        while_1 v k ls0 s0 = (Spinning lk, sk) ->
        is_quit (fst (getch (env sk))) = true ->
        (k < fuel)%nat ->
        main v fuel s
        = (Some 0, {| env := snd (getch (env sk));
                      screen := screen sk ++ [free; endwin] |})).
Proof.
  intros FO W v. split.
  - intros s s1 sz fuel Pre Fail. split.
    + unfold main, startup. unfold bind at 1 2. rewrite Pre.
      unfold allocate. unfold bind at 1. unfold ask at 1. rewrite Fail.
      cbn [negb]. unfold bind, emit, ret. reflexivity.
    + pose proof (preamble_screen v s) as [more E]. rewrite Pre in E.
      exists more. exact E.
  - intros s s0 sk ls0 lk k fuel St Run Q Lt.
    unfold main. unfold bind at 1. rewrite St. unfold bind at 1.
    replace fuel with (k + S (fuel - k - 1))%nat by lia.
    rewrite (while_1_more v k _ ls0 lk s0 sk Run).
    cbn [while_1]. unfold bind at 1. unfold tick. unfold bind at 1.
    unfold lift. destruct (getch (env sk)) as [c w1]. cbn [fst snd] in *.
    rewrite Q. unfold bind, emit, ret. cbn [env screen].
    rewrite <- app_assoc. reflexivity.
Qed.

Lemma C8_exit_codes_witness :
  fst (@main Scenario.B SimWorld TwoModes 3 (Scenario.boot Scenario.no_memory))
  = Some 1
  /\ fst (@main Scenario.B SimWorld OneMode 3 (Scenario.boot Scenario.quits))
     = Some 0.
Proof.
  split.
  - destruct (C8_exit_codes Scenario.B SimWorld TwoModes) as [A _].
    destruct
      (A (Scenario.boot Scenario.no_memory)
         (snd (@preamble SimWorld TwoModes (Scenario.boot Scenario.no_memory)))
         (fst (@preamble SimWorld TwoModes (Scenario.boot Scenario.no_memory)))
         3%nat (surjective_pairing _) ltac:(vm_compute; reflexivity))
      as [E _].
    rewrite E. reflexivity.
  - destruct (C8_exit_codes Scenario.B SimWorld OneMode) as [_ A].
    rewrite
      (A (Scenario.boot Scenario.quits)
         (snd (Scenario.started OneMode Scenario.quits))
         (snd (Scenario.started OneMode Scenario.quits))
         (fst (Scenario.started OneMode Scenario.quits))
         (fst (Scenario.started OneMode Scenario.quits))
         0%nat 3%nat
         ltac:(vm_compute; reflexivity)
         ltac:(reflexivity)
         ltac:(vm_compute; reflexivity)
         ltac:(lia)).
    reflexivity.
Defined.

(** C9. In the variant with two colour modes, in every state the loop
    reaches, the toggle applied twice gives back the very same loop state
    (mode and everything else), one toggle does change the mode, a key other
    than [r]/[R] leaves the state as it is, and neither the frame nor a whole
    iteration without a toggle key changes the mode. *)
Theorem C9_mode_toggle :
  forall (FO : FloatOps) (W : World) (s s0 sk : proc world)
         (ls0 lk : loop_state F) (k : nat),
    startup TwoModes s = (inr ls0, s0) ->
    while_1 TwoModes k ls0 s0 = (Spinning lk, sk) ->
    (forall c, is_toggle c = true ->
               on_key TwoModes c (on_key TwoModes c lk) = lk
               /\ on_key TwoModes c lk = toggle lk
               /\ bh_mode (on_key TwoModes c lk) <> bh_mode lk)
    /\ (forall c, is_toggle c = false -> on_key TwoModes c lk = lk)
    /\ (forall lk' sk', frame TwoModes lk sk = (lk', sk') ->
                        bh_mode lk' = bh_mode lk)
    /\ (forall lk' sk', tick TwoModes lk sk = (Some lk', sk') ->
                        is_toggle (fst (getch (env sk))) = false ->
                        bh_mode lk' = bh_mode lk).
Proof.
  intros FO W s s0 sk ls0 lk k St Run.
  destruct (startup_swarm TwoModes s s0 ls0 St) as (Ok0 & _).
  destruct (while_1_swarm TwoModes k ls0 s0 sk _ Run Ok0) as [Ok _].
  cbn [final] in Ok. split; [|split; [|split]].
  - intros c T. unfold on_key. rewrite T. unfold toggle.
    destruct Ok as [_ Hb]. destruct lk as [r0 c0 n0 p0 b0 b1 m].
    cbn [bh_mode with_bh_mode rows cols N P BH_PAIR_BASE BH_PAIR_COUNT] in *.
    destruct Hb; subst m; cbn; repeat split; discriminate.
  - intros c T. unfold on_key. rewrite T. reflexivity.
  - intros lk' sk' Fr.
    destruct (frame_swarm TwoModes _ _ _ _ Fr Ok) as (_ & _ & E). exact E.
  - intros lk' sk'. unfold tick, bind, lift.
    destruct (getch (env sk)) as [c w1]. cbn [fst].
    destruct (is_quit c); [unfold ret; discriminate|].
    destruct (frame TwoModes (on_key TwoModes c lk) _) as [l1 s1] eqn:Fr.
    unfold ret. intros E T. inversion E; subst; clear E.
    destruct (on_key_swarm TwoModes c lk Ok) as [Ok1 _].
    destruct (frame_swarm TwoModes _ _ _ _ Fr Ok1) as (_ & _ & E).
    rewrite E. unfold on_key. rewrite T. reflexivity.
Qed.

Lemma C9_mode_toggle_witness :
  let st := Scenario.started TwoModes Scenario.toggles in
  @on_key Scenario.B TwoModes (key "r")
    (@on_key Scenario.B TwoModes (key "r") (fst st)) = fst st
  /\ bh_mode (@on_key Scenario.B TwoModes (key "r") (fst st)) = 1.
Proof.
  intros st.
  destruct
    (C9_mode_toggle Scenario.B SimWorld
       (Scenario.boot Scenario.toggles) (snd st) (snd st) (fst st) (fst st)
       0%nat ltac:(vm_compute; reflexivity) ltac:(reflexivity))
    as (A & _).
  destruct (A (key "r") ltac:(reflexivity)) as (E & _ & _).
  split; [exact E | vm_compute; reflexivity].
Defined.

(** ** The trajectory in binary32 *)

Lemma RefLibm_annexF : B32.AnnexF RefLibm.libm.
Proof. split; intros s; reflexivity. Qed.

Lemma B32_sub_diag (t : B32.float32) :
  B32.is_finite t = true -> B32.sub t t = S754_zero false.
Proof.
  destruct t as [s | s | | s m e]; cbn [B32.is_finite]; try discriminate;
    intros _.
  - destruct s; reflexivity.
  - unfold B32.sub, SFsub. rewrite Z.sub_diag. reflexivity.
Qed.

Section Binary32Facts.

Variable L : B32.Libm.
Hypothesis HL : B32.AnnexF L.

Lemma expA_zero_b32 :
  @expA (Binary32 L) (S754_zero false)
  = {| M00 := B32.one; M01 := S754_zero true;
       M10 := S754_zero false; M11 := B32.one |}.
Proof.
  unfold expA.
  cbn [Binary32 expf cosf sinf fmul fadd fdiv fabsf flt lit].
  replace (B32.mul (B32.of_Q (-0.5)) (S754_zero false))
    with (S754_zero true) by (vm_compute; reflexivity).
  replace (B32.mul (B32.of_Q 0.8660254037844386) (S754_zero false))
    with (S754_zero false) by (vm_compute; reflexivity).
  rewrite (B32.exp_zero L HL), (B32.cos_zero L HL), (B32.sin_zero L HL).
  vm_compute. reflexivity.
Qed.

Lemma age_zero_b32 (t : B32.float32) :
  B32.is_finite t = true ->
  B32.mul (B32.sub t t) (@SPEED (Binary32 L)) = S754_zero false.
Proof.
  intros Ht. rewrite (B32_sub_diag t Ht). vm_compute. reflexivity.
Qed.

(** A particle of age exactly 0 is placed by the identity matrix. *)
Lemma place_newborn (cols rows : Z) (t : B32.float32)
    (p : Particle B32.float32) :
  B32.is_finite t = true ->
  born p = t ->
  @place (Binary32 L) cols rows t p
  = let m := {| M00 := B32.one; M01 := S754_zero true;
                M10 := S754_zero false; M11 := B32.one |} in
    let vx :=
      B32.mul (B32.mul (@RADIUS_MULT (Binary32 L)) (@SCALE (Binary32 L)))
        (B32.add (B32.mul (M00 m) (vx0 p)) (B32.mul (M01 m) (vy0 p))) in
    let vy :=
      B32.mul (B32.mul (@RADIUS_MULT (Binary32 L)) (@SCALE (Binary32 L)))
        (B32.add (B32.mul (M10 m) (vx0 p)) (B32.mul (M11 m) (vy0 p))) in
    let sx := B32.mul (@X_MULT (Binary32 L)) vx in
    let sy := B32.mul (@Y_MULT (Binary32 L)) vy in
    {| age := S754_zero false; vx := vx; vy := vy; sx := sx; sy := sy;
       r := B32.sqrt (B32.add (B32.mul vx vx) (B32.mul vy vy));
       fx := B32.add (@center (Binary32 L) cols) sx;
       fy := B32.add (@center (Binary32 L) rows) sy;
       x := CInt.wrap (B32.lround (B32.add (@center (Binary32 L) cols) sx));
       y := CInt.wrap (B32.lround (B32.add (@center (Binary32 L) rows) sy)) |}.
Proof.
  intros Ht Hb. subst t. unfold place.
  cbn [Binary32 fmul fsub fadd sqrtf lroundf].
  match goal with
  | |- context [expA ?a] =>
      assert (E : a = S754_zero false) by (apply age_zero_b32; exact Ht);
      rewrite E
  end.
  match goal with
  | |- context [@expA ?fo ?z] =>
      rewrite (expA_zero_b32 : @expA fo z = _)
  end.
  reflexivity.
Qed.

End Binary32Facts.

(** ** The trajectory in exact arithmetic *)

Lemma expA_zero_exact :
  @expA Exact 0%R = {| M00 := 1%R; M01 := 0%R; M10 := 0%R; M11 := 1%R |}.
Proof.
  unfold expA.
  cbn [Exact F lit expf cosf sinf fmul fadd fdiv fabsf flt].
  rewrite !Rmult_0_r, exp_0, cos_0, sin_0.
  match goal with
  | |- context [if ?b then 0%R else (0 / ?w)%R] =>
      replace (if b then 0%R else (0 / w)%R) with 0%R
        by (destruct b;
            [reflexivity | unfold Rdiv; rewrite Rmult_0_l; reflexivity])
  end.
  f_equal; ring.
Qed.

(** C3. [expA(0)] is the identity matrix: exactly so in exact arithmetic;
    in binary32, with a libm that returns what C fixes at zero, [M[0][0]]
    and [M[1][1]] are 1, [M[1][0]] is +0 and [M[0][1]] is -0, which [==]
    does not tell from 0. *)
Theorem C3_expA_zero_is_identity :
  @expA Exact 0%R = {| M00 := 1%R; M01 := 0%R; M10 := 0%R; M11 := 1%R |}
  /\ forall L : B32.Libm,
      B32.AnnexF L ->
      let m := @expA (Binary32 L) (S754_zero false) in
      M00 m = B32.one /\ M11 m = B32.one
      /\ M10 m = S754_zero false /\ M01 m = S754_zero true
      /\ B32.eqb (M10 m) (S754_zero false) = true
      /\ B32.eqb (M01 m) (S754_zero false) = true.
Proof.
  split; [exact expA_zero_exact|].
  intros L HL m. subst m. rewrite (expA_zero_b32 L HL).
  cbn [M00 M01 M10 M11]. repeat split.
Qed.

Lemma C3_expA_zero_is_identity_witness :
  M00 (@expA Scenario.B (S754_zero false)) = B32.one
  /\ B32.eqb (M01 (@expA Scenario.B (S754_zero false))) (S754_zero false)
     = true.
Proof.
  destruct C3_expA_zero_is_identity as [_ A].
  destruct (A RefLibm.libm RefLibm_annexF) as (E & _ & _ & _ & _ & Z).
  split; [exact E | exact Z].
Defined.

(** C4. On an 80x24 terminal (SPEED 1.35, SCALE 0.76, RADIUS_MULT 2.0), a
    particle with launch vector (10, 0) whose birth time is the frame's time
    has age exactly 0, and its position before rounding is
    [(cx + 2*0.76*10*X_MULT, cy)] with [cx = 39.5] and [cy = 11.5]: the
    horizontal offset is [15.2*X_MULT], the vertical one is zero. All
    products and sums are those of binary32. Rounded, the cell is (70, 12). *)
Theorem C4_newborn_position :
  forall (L : B32.Libm) (t : B32.float32) (c : ascii),
    B32.AnnexF L ->
    B32.is_finite t = true ->
    let B := Binary32 L in
    let p := {| vx0 := B32.of_Z 10; vy0 := B32.of_Z 0; born := t; ch := c |} in
    let pl := @place B 80 24 t p in
    age pl = S754_zero false
    /\ @center B 80 = B32.of_Q 39.5
    /\ @center B 24 = B32.of_Q 11.5
    /\ sx pl
       = B32.mul
           (B32.mul (B32.mul (B32.of_Q 2) (B32.of_Q 0.76)) (B32.of_Z 10))
           (@X_MULT B)
    /\ sx pl = B32.mul (B32.of_Q 15.2) (@X_MULT B)
    /\ sy pl = S754_zero false
    /\ fx pl = B32.add (B32.of_Q 39.5) (B32.mul (B32.of_Q 15.2) (@X_MULT B))
    /\ fy pl = B32.of_Q 11.5
    /\ x pl = 70 /\ y pl = 12.
Proof.
  intros L t c HL Ht B p pl. subst pl B.
  rewrite (place_newborn L HL 80 24 t p Ht eq_refl).
  subst p. cbn [vx0 vy0 age sx sy fx fy x y M00 M01 M10 M11].
  repeat split; vm_compute; reflexivity.
Qed.

Lemma C4_newborn_position_witness :
  let p := {| vx0 := B32.of_Z 10; vy0 := B32.of_Z 0; born := B32.of_Z 100;
              ch := "a"%char |} in
  fx (@place Scenario.B 80 24 (B32.of_Z 100) p)
  = B32.add (B32.of_Q 39.5) (B32.mul (B32.of_Q 15.2) (B32.of_Q 2))
  /\ fy (@place Scenario.B 80 24 (B32.of_Z 100) p) = B32.of_Q 11.5.
Proof.
  intros p.
  destruct
    (C4_newborn_position RefLibm.libm (B32.of_Z 100) "a"%char
       RefLibm_annexF ltac:(reflexivity))
    as (_ & _ & _ & _ & _ & _ & X & Y & _).
  split; [exact X | exact Y].
Defined.

Section OffScreen.

Variable L : B32.Libm.
Hypothesis HL : B32.AnnexF L.
Context {W : World}.


End OffScreen.



(** ** The trajectory in exact arithmetic: literals *)

Ltac exact_lit q v :=
  cbn [lit Exact];
  replace (B32.of_Q q) with v by (vm_compute; reflexivity);
  reflexivity.

Lemma lit_w : @lit Exact 0.8660254037844386 = (14529495 / 16777216)%R.
Proof. exact_lit 0.8660254037844386%Q (S754_finite false 14529495 (-24)). Qed.

Lemma lit_1em8 : @lit Exact 1e-8 = (11258999 / 1125899906842624)%R.
Proof. exact_lit 1e-8%Q (S754_finite false 11258999 (-50)). Qed.

Lemma lit_mhalf : @lit Exact (-0.5) = (- (8388608 / 16777216))%R.
Proof. exact_lit (-0.5)%Q (S754_finite true 8388608 (-24)). Qed.

Lemma lit_half : @lit Exact 0.5 = (8388608 / 16777216)%R.
Proof. exact_lit 0.5%Q (S754_finite false 8388608 (-24)). Qed.

Lemma lit_one : @lit Exact 1.0 = (8388608 / 8388608)%R.
Proof. exact_lit 1.0%Q (S754_finite false 8388608 (-23)). Qed.

Lemma lit_mone : @lit Exact (-1.0) = (- (8388608 / 8388608))%R.
Proof. exact_lit (-1.0)%Q (S754_finite true 8388608 (-23)). Qed.

Lemma expA_exact (t : R) :
  @expA Exact t
  = let et := exp (- (1 / 2) * t) in
    let c := cos (14529495 / 16777216 * t) in
    let k := (sin (14529495 / 16777216 * t) / (14529495 / 16777216))%R in
    {| M00 := (et * (c + k * - (1 / 2)))%R;
       M01 := (et * (k * - 1))%R;
       M10 := (et * (k * 1))%R;
       M11 := (et * (c + k * (1 / 2)))%R |}.
Proof.
  unfold expA. rewrite lit_w, lit_1em8, lit_mhalf, lit_half, lit_one, lit_mone.
  cbn [Exact F expf cosf sinf fmul fadd fdiv fabsf flt].
  unfold ExactR.ltb.
  destruct (Rlt_dec _ _) as [H | _].
  - exfalso. rewrite Rabs_pos_eq in H by lra. lra.
  - cbv zeta. f_equal; try (f_equal; try lra); f_equal; lra.
Qed.




(** ** The spawn ring in exact arithmetic *)



Lemma lit_035 : @lit Exact 0.35 = (11744051 / 33554432)%R.
Proof. exact_lit 0.35%Q (S754_finite false 11744051 (-25)). Qed.

Lemma lit_095 : @lit Exact 0.95 = (15938355 / 16777216)%R.
Proof. exact_lit 0.95%Q (S754_finite false 15938355 (-24)). Qed.

Lemma lit_295 : @lit Exact 2.95 = (12373197 / 4194304)%R.
Proof. exact_lit 2.95%Q (S754_finite false 12373197 (-22)). Qed.


Lemma lit_two : @lit Exact 2.0 = (8388608 / 4194304)%R.
Proof. exact_lit 2.0%Q (S754_finite false 8388608 (-22)). Qed.

Lemma Sim_rand_range (w : Sim.sim) : 0 <= fst (Sim.rand w) <= 32767.
Proof.
  unfold Sim.rand. destruct (Sim.script w) as [|k rest]; cbn [fst].
  - pose proof (Z.mod_pos_bound
                  (((Sim.seed w * 1103515245 + 12345) mod 2 ^ 32) / 65536)
                  32768 ltac:(lia)).
    lia.
  - pose proof (Z.mod_pos_bound k 32768 ltac:(lia)). lia.
Qed.

Section Spawn.

Context {W : World}.
Hypothesis RAND_MAX_pos : 0 < RAND_MAX.
Hypothesis rand_range : forall w, 0 <= fst (rand w) <= RAND_MAX.

Lemma frandf_exact (a b : R) (s : proc world) :
  fst (@frandf Exact W a b s)
  = (a + (b - a) * IZR (fst (rand (env s))) / IZR RAND_MAX)%R.
Proof.
  unfold frandf, bind, lift, ret. destruct (rand (env s)). reflexivity.
Qed.

Lemma unit_fraction (k : Z) :
  0 <= k <= RAND_MAX -> (0 <= IZR k / IZR RAND_MAX <= 1)%R.
Proof.
  intros [H0 H1]. apply IZR_le in H0, H1.
  assert (0 < IZR RAND_MAX)%R by (apply IZR_lt; exact RAND_MAX_pos).
  split.
  - apply Rmult_le_pos; [assumption | left; apply Rinv_0_lt_compat; assumption].
  - apply Rmult_le_reg_r with (IZR RAND_MAX); [assumption|].
    unfold Rdiv. rewrite Rmult_assoc, Rinv_l by lra. lra.
Qed.

Lemma frandf_between (a b : R) (s : proc world) :
  (a <= b)%R -> (a <= fst (@frandf Exact W a b s) <= b)%R.
Proof.
  intros Hab. rewrite frandf_exact.
  pose proof (unit_fraction _ (rand_range (env s))) as U.
  unfold Rdiv in *. rewrite Rmult_assoc.
  set (u := (IZR (fst (rand (env s))) * / IZR RAND_MAX)%R) in *.
  split; nra.
Qed.

Lemma center_exact (n : Z) :
  1 <= n < 2 ^ 31 -> @center Exact n = (IZR (n - 1) / 2)%R.
Proof.
  intros H. unfold center, CInt.sub. rewrite wrap_small by lia.
  rewrite lit_half. cbn [Exact fmul of_int]. lra.
Qed.

Lemma outer_exact (v : variant) :
  (@lit Exact 0.35 < @outer Exact v)%R.
Proof.
  rewrite lit_035. destruct v; unfold outer; rewrite ?lit_095, ?lit_295; lra.
Qed.

(** What [respawn] writes: a radius and an angle drawn by [frandf]. *)
Lemma respawn_exact (v : variant) (p : Particle R) (cols rows : Z)
    (s : proc world) :
  let maxr := Rmin (@center Exact cols) (@center Exact rows) in
  exists (rad a t : R) (c : ascii) (s1 s' : proc world),
    rad = fst (@frandf Exact W (maxr * @lit Exact 0.35)%R
                 (maxr * @outer Exact v)%R s)
    /\ a = fst (@frandf Exact W (@lit Exact 0.0)
                  (@lit Exact 2.0 * @M_PI_f Exact)%R s1)
    /\ @respawn Exact W v p cols rows s
       = ({| vx0 := (rad * cos a)%R; vy0 := (rad * sin a)%R;
             born := t; ch := c |}, s').
Proof.
  intros maxr. unfold respawn.
  cbn [Exact F fminf fmul cosf sinf]. fold Exact. fold maxr.
  unfold bind at 1.
  destruct (@frandf Exact W _ _ s) as [rad s1] eqn:E1.
  unfold bind at 1.
  destruct (@frandf Exact W _ _ s1) as [a s2] eqn:E2.
  exists rad, a.
  unfold now_seconds, rand_char. unfold bind, lift, ret. run_world.
  do 2 eexists. exists s1. eexists.
  rewrite E2. cbn [fst]. repeat split.
Qed.

End Spawn.




(** ** Where the glyph of a particle comes from *)

Section Glyphs.

Context {FO : FloatOps} {W : World}.
Variable v : variant.

Lemma respawn_ch (p : Particle F) (cols rows : Z) (s : proc world) :
  exists w : world,
    ch (fst (respawn v p cols rows s)) = glyph_of (fst (rand w)).
Proof.
  unfold respawn, frandf, now_seconds, rand_char, bind, lift, ret.
  destruct (rand (env s)) as [k1 w1]; cbn [env screen].
  destruct (rand w1) as [k2 w2]; cbn [env screen].
  destruct (clock_gettime w2) as [[sec ns] w3]; cbn [env screen fst snd].
  exists w3. destruct (rand w3) as [k3 w4]. reflexivity.
Qed.

Lemma step_ch (ls : loop_state F) (maxr_vis tnow : F) (p : Particle F)
    (s : proc world) :
  ch (fst (step v ls maxr_vis tnow p s)) = ch p
  \/ exists w : world,
       ch (fst (step v ls maxr_vis tnow p s)) = glyph_of (fst (rand w)).
Proof.
  unfold step.
  destruct (must_respawn _ _ _); [right; apply respawn_ch|].
  unfold rand_char. unfold bind, lift, ask, ret. cbv beta.
  destruct (rand (env s)) as [k w1]. cbn [env screen].
  destruct (CInt.rem k 28 =? 0); cbv beta iota; cbn [env screen].
  - right. exists w1. destruct (rand w1) as [k2 w2]. cbv beta iota.
    cbn [env screen fst].
    match goal with
    | |- context [let (_, _) := ?d in _] => destruct d
    end.
    reflexivity.
  - left.
    match goal with
    | |- context [let (_, _) := ?d in _] => destruct d
    end.
    reflexivity.
Qed.

End Glyphs.

(** C6, as stated: the set would have 74 characters. It has 71. *)
Lemma C6_set_has_not_74_characters : strlen set <> 74.
Proof. rewrite strlen_set. discriminate. Qed.

(** C6, amended: every glyph a particle gets, from [respawn] or from the
    mutation in the loop body, is [set[rand() % 71]], a character of a fixed
    set of 71 distinct characters (10 digits, 26 + 26 letters, 9 symbols);
    every character of the set is selected by some result of [rand()]; and
    over the results [0 .. m] of [rand()] the numbers of results that select
    any two characters differ by one at most, so a uniform [rand()] gives a
    uniform glyph up to that rounding. *)
Theorem C6_glyph_from_71_characters :
  strlen set = 71 /\ NoDup glyphs /\
  (forall (W : World) (s : proc world),
      fst (rand_char s) = glyph_of (fst (rand (env s)))) /\
  (forall (FO : FloatOps) (W : World) (v : variant) (p : Particle F)
          (cols rows : Z) (s : proc world),
      exists w : world,
        ch (fst (respawn v p cols rows s)) = glyph_of (fst (rand w))) /\
  (forall (FO : FloatOps) (W : World) (v : variant) (ls : loop_state F)
          (maxr_vis tnow : F) (p : Particle F) (s : proc world),
      ch (fst (step v ls maxr_vis tnow p s)) = ch p
      \/ exists w : world,
           ch (fst (step v ls maxr_vis tnow p s)) = glyph_of (fst (rand w))) /\
  (forall k, 0 <= k -> In (glyph_of k) glyphs) /\
  (forall c, In c glyphs -> exists k, 0 <= k < 71 /\ glyph_of k = c) /\
  (forall c1 c2 (m : nat),
      In c1 glyphs -> In c2 glyphs ->
      (hits c1 (S m) <= hits c2 (S m) + 1)%nat).
Proof.
  split; [exact strlen_set|]. split; [exact glyphs_NoDup|].
  split; [|split; [|split; [|split; [|split]]]].
  - intros W s. unfold rand_char, bind, lift, ret.
    destruct (rand (env s)); reflexivity.
  - intros FO W v p cols rows s. apply respawn_ch.
  - intros FO W v ls maxr_vis tnow p s. apply step_ch.
  - intros k Hk. eapply nth_error_In. apply glyph_of_nth; assumption.
  - exact glyph_index.
  - intros c1 c2 m H1 H2.
    destruct (glyph_index c1 H1) as [i [Hi <-]].
    destruct (glyph_index c2 H2) as [j [Hj <-]].
    pose proof (hits_count i (S m) Hi). pose proof (hits_count j (S m) Hj).
    Z.div_mod_to_equations. lia.
Qed.

Lemma C6_glyph_from_71_characters_witness :
  In (glyph_of 75) glyphs /\
  (hits "0"%char 100 <= hits "-"%char 100 + 1)%nat.
Proof.
  destruct C6_glyph_from_71_characters as (_ & _ & _ & _ & _ & A & _ & B).
  split.
  - apply A. lia.
  - apply B; vm_compute; tauto.
Defined.

(** ** The trace of a frame and of a run *)

Section Emitted.

Context {FO : FloatOps} {W : World}.

Lemma draw_trail_emitted (pl : placement F) (c : ascii) (s : proc world) :
  exists bold : bool,
    bold = flt (lit 0.66) (fminf (age pl / lit 2.0)%fl (lit 1.0))
    /\ emitted (draw_trail pl c) s
         (bracket (COLOR_PAIR 1 :: if bold then [A_BOLD] else [])
            (y pl) (x pl) c)
    /\ env (snd (draw_trail pl c s)) = env s.
Proof.
  eexists. split; [reflexivity|].
  unfold emitted, draw_trail, bind, when, emit, ret.
  destruct (flt _ _); cbn [snd screen env bracket map rev app];
    rewrite <- ?app_assoc; auto.
Qed.

Lemma draw_disk_emitted (BASE COUNT : Z) (maxr_vis tnow : F)
    (pl : placement F) (c : ascii) (s : proc world) :
  exists d : list call,
    emitted (draw_disk BASE COUNT maxr_vis tnow pl c) s d
    /\ (d = []
        \/ exists st : style,
            d = bracket (style_attrs st) (y pl) (x pl) c
            /\ (1 <= COUNT -> BASE <= pair st <= BASE + COUNT - 1)
            /\ (do_blink st = true -> do_bold st = true)
            /\ (do_bold st = true -> do_dim st = true -> do_blink st = true)).
Proof.
  unfold emitted, draw_disk. cbv zeta.
  repeat first
    [ progress unfold bind, lift, ret, when, emit
    | progress cbv beta iota
    | progress cbn [fst snd env screen pair do_bold do_dim do_blink draw_it]
    | match goal with
      | |- context [rand ?w] => destruct (rand w)
      | |- context [if ?b then _ else _] => destruct b eqn:?
      end ].
  all: eexists; split;
    [ first [ symmetry; apply app_nil_r
            | rewrite <- ?app_assoc; cbn [app]; reflexivity ] | ].
  all: try (left; reflexivity).
  all: right.
  all: match goal with
       | |- exists st, attron (COLOR_PAIR ?p) :: _ = _ /\ _ =>
           first
             [ exists {| pair := p; do_bold := false; do_dim := false;
                         do_blink := false; draw_it := true |};
               split; [reflexivity|]
             | exists {| pair := p; do_bold := true; do_dim := false;
                         do_blink := false; draw_it := true |};
               split; [reflexivity|]
             | exists {| pair := p; do_bold := false; do_dim := true;
                         do_blink := false; draw_it := true |};
               split; [reflexivity|]
             | exists {| pair := p; do_bold := true; do_dim := false;
                         do_blink := true; draw_it := true |};
               split; [reflexivity|]
             | exists {| pair := p; do_bold := true; do_dim := true;
                         do_blink := true; draw_it := true |};
               split; [reflexivity|] ]
       end.
  all: cbn [pair do_bold do_dim do_blink].
  all: repeat match goal with
              | H : Z.ltb _ _ = true |- _ => apply Z.ltb_lt in H
              | H : Z.ltb _ _ = false |- _ => apply Z.ltb_ge in H
              | H : Z.geb _ _ = true |- _ => apply Z.geb_le in H
              | H : Z.geb _ _ = false |- _ =>
                  rewrite Z.geb_leb in H; apply Z.leb_gt in H
              end.
  all: repeat split; intros; try discriminate; try reflexivity; lia.
Qed.

Lemma emit_emitted (c : call) (s : proc world) : emitted (emit c) s [c].
Proof. reflexivity. Qed.

Lemma style_attrs_pair (st : style) (n : Z) :
  In (COLOR_PAIR n) (style_attrs st) -> n = pair st.
Proof.
  unfold style_attrs. destruct (do_bold st), (do_dim st), (do_blink st);
    cbn [app In]; intuition congruence.
Qed.

Lemma style_attrs_blink (st : style) :
  (do_blink st = true -> do_bold st = true) ->
  In A_BLINK (style_attrs st) -> In A_BOLD (style_attrs st).
Proof.
  unfold style_attrs. destruct (do_bold st), (do_dim st), (do_blink st);
    cbn [app In]; intuition congruence.
Qed.

(** What the loop body adds to the trace for one particle: nothing, or the
    calls of one cell, at the rounded position, with the glyph the particle
    has after the step. *)
Lemma step_emitted (v : variant) (ls : loop_state F) (maxr_vis tnow : F)
    (p : Particle F) (s : proc world) :
  let pl := place (cols ls) (rows ls) tnow p in
  exists d : list call,
    emitted (step v ls maxr_vis tnow p) s d
    /\ (d = []
        \/ (must_respawn (cols ls) (rows ls) pl = false
            /\ exists ats : list attr,
                d = bracket ats (y pl) (x pl)
                      (ch (fst (step v ls maxr_vis tnow p s)))
                /\ attrs_ok ls ats)).
Proof.
  intros pl. unfold emitted, step. fold pl.
  destruct (must_respawn (cols ls) (rows ls) pl) eqn:R.
  { exists []. split; [|left; reflexivity].
    rewrite respawn_screen, app_nil_r. reflexivity. }
  assert (Plain : attrs_ok ls []).
  { split; cbn [In]; tauto. }
  assert (Trail : forall bold : bool,
             attrs_ok ls (COLOR_PAIR 1 :: if bold then [A_BOLD] else [])).
  { intros bold. split; destruct bold; cbn [In]; intuition congruence. }
  unfold rand_char. unfold bind, lift, ask, ret. cbv beta.
  destruct (rand (env s)) as [k w1]. cbn [env screen].
  destruct (CInt.rem k 28 =? 0); cbv beta iota; cbn [env screen];
    [destruct (rand w1) as [k2 w2]; cbv beta iota; cbn [env screen]|].
  all: destruct v;
    repeat match goal with
           | |- context [if ?b then _ else _] => destruct b
           end.
  all: match goal with
       | |- context [draw_trail ?q ?c ?s0] =>
           destruct (draw_trail_emitted q c s0) as (bold & _ & E & _);
           unfold emitted in E; destruct (draw_trail q c s0) as [[] s3];
           cbn [fst snd ch screen] in *; rewrite E; eexists;
           split; [reflexivity|]; right; split; [reflexivity|];
           eexists; split; [reflexivity | apply Trail]
       | |- context [draw_disk ?b0 ?n0 ?mv ?t0 ?q ?c ?s0] =>
           destruct (draw_disk_emitted b0 n0 mv t0 q c s0)
             as (d & E & [-> | (st & -> & A & B & _)]);
           unfold emitted in E;
           destruct (draw_disk b0 n0 mv t0 q c s0) as [[] s3];
           cbn [fst snd ch screen] in *; rewrite E; eexists;
           (split; [reflexivity|]);
           [ left; reflexivity
           | right; split; [reflexivity|]; eexists; split; [reflexivity|];
             split;
             [ intros n Hn; apply style_attrs_pair in Hn; subst n; right;
               exact A
             | apply style_attrs_blink; exact B ] ]
       | |- context [emit ?e ?s0] =>
           unfold emit; cbn [fst snd ch screen env]; eexists;
           split; [reflexivity|]; right; split; [reflexivity|];
           exists []; split; [reflexivity | exact Plain]
       end.
Qed.

Lemma attr_eqb_refl (a : attr) : attr_eqb a a = true.
Proof. destruct a; cbn; auto. apply Z.eqb_refl. Qed.

Lemma nesting_app (d1 d2 : list call) (on : list attr) :
  nesting on (d1 ++ d2)
  = match nesting on d1 with
    | Some on' => nesting on' d2
    | None => None
    end.
Proof.
  revert on; induction d1 as [|c d1 IH]; intros on; cbn [app nesting].
  - reflexivity.
  - destruct c; auto.
    destruct on as [|b on]; auto. destruct (attr_eqb a b); auto.
Qed.

Lemma nesting_open (ats : list attr) (rest : list call) (on : list attr) :
  nesting on (map attron ats ++ rest) = nesting (rev ats ++ on) rest.
Proof.
  revert on; induction ats as [|a ats IH]; intros on; cbn [map app nesting rev].
  - reflexivity.
  - rewrite IH, <- app_assoc. reflexivity.
Qed.

Lemma nesting_close (l : list attr) (rest : list call) (on : list attr) :
  nesting (l ++ on) (map attroff l ++ rest) = nesting on rest.
Proof.
  induction l as [|a l IH]; cbn [map app nesting].
  - reflexivity.
  - rewrite attr_eqb_refl. exact IH.
Qed.

Lemma nesting_bracket (ats : list attr) (y x : Z) (c : ascii)
    (on : list attr) :
  nesting on (bracket ats y x c) = Some on.
Proof.
  unfold bracket. rewrite nesting_open. cbn [app nesting].
  rewrite <- (app_nil_r (map attroff (rev ats))), nesting_close.
  reflexivity.
Qed.

Lemma writes_app (d1 d2 : list call) :
  writes (d1 ++ d2) = (writes d1 + writes d2)%nat.
Proof. unfold writes. rewrite filter_app, length_app. reflexivity. Qed.

Lemma writes_bracket (ats : list attr) (y x : Z) (c : ascii) :
  writes (bracket ats y x c) = 1%nat.
Proof.
  unfold bracket. rewrite !writes_app.
  assert (A : forall l, writes (map attron l) = 0%nat)
    by (induction l; auto).
  assert (B : forall l, writes (map attroff l) = 0%nat)
    by (induction l; auto).
  rewrite A, B. reflexivity.
Qed.

Lemma tidy_nil (rows cols : Z) : tidy rows cols 0 [].
Proof. repeat split; auto. Qed.

Lemma tidy_app (rows cols : Z) (n m : nat) (d1 d2 : list call) :
  tidy rows cols n d1 -> tidy rows cols m d2 ->
  tidy rows cols (n + m) (d1 ++ d2).
Proof.
  intros (A1 & B1 & C1 & D1) (A2 & B2 & C2 & D2). repeat split.
  - apply Forall_app; auto.
  - apply Forall_app; auto.
  - intros on. rewrite nesting_app, C1. apply C2.
  - rewrite writes_app. lia.
Qed.

Lemma tidy_bracket (rows cols : Z) (ats : list attr) (y x : Z) (c : ascii) :
  0 <= x < cols -> 0 <= y < rows -> tidy rows cols 1 (bracket ats y x c).
Proof.
  intros Hx Hy. repeat split.
  - unfold bracket. rewrite !Forall_app. repeat split.
    + apply Forall_forall. intros q Hq. apply in_map_iff in Hq.
      destruct Hq as (a & <- & _). exact I.
    + repeat constructor.
    + apply Forall_forall. intros q Hq. apply in_map_iff in Hq.
      destruct Hq as (a & <- & _). exact I.
  - unfold bracket. rewrite !Forall_app. repeat split.
    + apply Forall_forall. intros q Hq. apply in_map_iff in Hq.
      destruct Hq as (a & <- & _). exact I.
    + repeat constructor; lia.
    + apply Forall_forall. intros q Hq. apply in_map_iff in Hq.
      destruct Hq as (a & <- & _). exact I.
  - intros on. apply nesting_bracket.
  - rewrite writes_bracket. lia.
Qed.

Lemma must_respawn_false (rows cols : Z) (pl : placement F) :
  must_respawn cols rows pl = false ->
  0 <= x pl < cols /\ 0 <= y pl < rows /\ flt (r pl) MIN_R = false.
Proof.
  unfold must_respawn. intros H.
  repeat (apply orb_false_iff in H; destruct H as [H ?]).
  repeat match goal with
         | H : Z.ltb _ _ = false |- _ => apply Z.ltb_ge in H
         | H : Z.geb _ _ = false |- _ =>
             rewrite Z.geb_leb in H; apply Z.leb_gt in H
         end.
  repeat split; auto; lia.
Qed.

(** The loop over the swarm: what every body keeps, the loop keeps. *)
Lemma for_each_emitted (Q : nat -> list call -> Prop)
    (In_ Out_ : Particle F -> Prop) (body : Particle F -> M (Particle F)) :
  Q 0%nat [] ->
  (forall n m d1 d2, Q n d1 -> Q m d2 -> Q (n + m)%nat (d1 ++ d2)) ->
  (forall p s, In_ p ->
               exists d, emitted (body p) s d /\ Q 1%nat d
                         /\ Out_ (fst (body p s))) ->
  forall (P0 : list (Particle F)) (s : proc world),
    Forall In_ P0 ->
    exists d, emitted (for_each body P0) s d
              /\ Q (List.length P0) d
              /\ Forall Out_ (fst (for_each body P0 s)).
Proof.
  intros Q0 Qapp Hbody P0. induction P0 as [|p P0 IH]; intros s HI.
  - exists []. unfold emitted. cbn. rewrite app_nil_r. auto.
  - inversion HI as [|? ? Hp HP0]; subst.
    destruct (Hbody p s Hp) as (d1 & E1 & Q1 & O1).
    unfold emitted in *. cbn [for_each]. unfold bind, ret.
    destruct (body p s) as [p' s1]. cbn [fst snd] in *.
    destruct (IH s1 HP0) as (d2 & E2 & Q2 & O2).
    destruct (for_each body P0 s1) as [P' s2]. cbn [fst snd] in *.
    exists (d1 ++ d2). rewrite E2, E1, app_assoc.
    split; [reflexivity|]. split; [|constructor; assumption].
    apply (Qapp 1%nat (List.length P0)); assumption.
Qed.

Lemma for_each_Forall2 (body : Particle F -> M (Particle F))
    (P0 : list (Particle F)) (s : proc world) :
  Forall2 (fun p p' => exists s0, p' = fst (body p s0))
    P0 (fst (for_each body P0 s)).
Proof.
  revert s; induction P0 as [|p P0 IH]; intros s; cbn [for_each].
  - constructor.
  - unfold bind, ret. destruct (body p s) as [p' s1] eqn:E.
    specialize (IH s1). destruct (for_each body P0 s1) as [P' s2].
    cbn [fst] in *. constructor; [|exact IH].
    exists s. rewrite E. reflexivity.
Qed.

Lemma for_each_silent (body : Particle F -> M (Particle F)) :
  (forall p s, screen (snd (body p s)) = screen s) ->
  forall P0 s, screen (snd (for_each body P0 s)) = screen s.
Proof.
  intros Hb P0 s.
  destruct (for_each_emitted (fun _ d => d = []) (fun _ => True)
              (fun _ => True) body eq_refl) with (P0 := P0) (s := s)
    as (d & E & -> & _).
  - intros n m d1 d2 -> ->. reflexivity.
  - intros p s0 _. exists []. unfold emitted.
    rewrite Hb, app_nil_r. auto.
  - apply Forall_forall. auto.
  - unfold emitted in E. rewrite E, app_nil_r. reflexivity.
Qed.

(** The two ways through the resize test. *)
Lemma resize_cases (v : variant) (ls : loop_state F) (s : proc world) :
  let sz := fst (getmaxyx (env s)) in
  let ls1 := fst (resize v ls s) in
  let s1 := snd (resize v ls s) in
  rows ls1 = fst sz /\ cols ls1 = snd sz /\ N ls1 = N ls
  /\ BH_PAIR_BASE ls1 = BH_PAIR_BASE ls
  /\ BH_PAIR_COUNT ls1 = BH_PAIR_COUNT ls
  /\ bh_mode ls1 = bh_mode ls
  /\ List.length (P ls1) = List.length (P ls)
  /\ ((fst sz = rows ls /\ snd sz = cols ls
       /\ ls1 = ls /\ screen s1 = screen s)
      \/ ((fst sz <> rows ls \/ snd sz <> cols ls)
          /\ screen s1 = screen s ++ [clear]
          /\ Forall2
               (fun p p' =>
                  exists s0, p' = fst (respawn v p (snd sz) (fst sz) s0))
               (P ls) (P ls1))).
Proof.
  unfold resize, bind, lift.
  destruct (getmaxyx (env s)) as [[newr newc] w1]. cbn [fst snd].
  destruct (negb (newr =? rows ls) || negb (newc =? cols ls)) eqn:T.
  - unfold emit, ret.
    match goal with
    | |- context [for_each ?b ?l ?s0] =>
        pose proof (for_each_length b l s0) as L;
        pose proof (for_each_Forall2 b l s0) as F2;
        pose proof (for_each_silent b
                      (fun p s => respawn_screen v p newc newr s) l s0) as Sc;
        destruct (for_each b l s0) as [P' s2]
    end.
    cbn [fst snd with_P with_size rows cols N P BH_PAIR_BASE BH_PAIR_COUNT
         bh_mode screen] in *.
    repeat split; auto. right. repeat split; auto.
    apply orb_true_iff in T. destruct T as [T | T];
      apply negb_true_iff, Z.eqb_neq in T; auto.
  - unfold ret. cbn [fst snd].
    apply orb_false_iff in T. destruct T as [T1 T2].
    apply negb_false_iff, Z.eqb_eq in T1, T2.
    repeat split; auto.
Qed.

(** A frame, laid out: the resize test, [erase], one reading of the clock,
    the loop over the swarm, [refresh] and [usleep]. *)
Lemma frame_unfold (v : variant) (ls : loop_state F) (s : proc world) :
  let ls1 := fst (resize v ls s) in
  let s1 := snd (resize v ls s) in
  exists (tnow maxr_vis : F) (s2 : proc world),
    screen s2 = screen s1 ++ [erase]
    /\ let r := for_each (step v ls1 maxr_vis tnow) (P ls1) s2 in
       frame v ls s
       = (with_P (fst r) ls1,
          {| env := env (snd r);
             screen := (screen (snd r) ++ [refresh]) ++ [usleep (FPS_US v)] |}).
Proof.
  intros ls1 s1. unfold frame. unfold bind at 1.
  fold ls1 s1. destruct (resize v ls s) as [l0 s0]. cbn [fst snd] in *.
  unfold now_seconds. unfold bind, emit, lift, ret. cbn [env screen].
  destruct (clock_gettime (env s0)) as [[sec nsec] w2]. cbn [fst snd].
  match goal with
  | |- context [for_each (step v _ ?mv ?t) _ ?s2] => exists t, mv, s2
  end.
  split; [reflexivity|]. cbv zeta. subst ls1.
  destruct (for_each _ _ _) as [P' s3]. reflexivity.
Qed.

Lemma step_tidy (v : variant) (ls : loop_state F) (maxr_vis tnow : F)
    (p : Particle F) (s : proc world) :
  exists d, emitted (step v ls maxr_vis tnow p) s d
            /\ tidy (rows ls) (cols ls) 1 d.
Proof.
  destruct (step_emitted v ls maxr_vis tnow p s)
    as (d & E & [-> | (R & ats & -> & _)]).
  - exists []. split; [exact E|].
    destruct (tidy_nil (rows ls) (cols ls)) as (A & B & C & D).
    repeat split; auto.
  - eexists. split; [exact E|].
    apply must_respawn_false in R. destruct R as (Hx & Hy & _).
    apply tidy_bracket; assumption.
Qed.

(** The trace of one frame. *)
Lemma frame_shape (v : variant) (ls ls' : loop_state F) (s s' : proc world) :
  frame v ls s = (ls', s') ->
  exists (resized : bool) (d : list call),
    screen s'
    = screen s ++ (if resized then [clear] else []) ++ [erase] ++ d
      ++ [refresh; usleep (FPS_US v)]
    /\ tidy (rows ls') (cols ls') (List.length (P ls)) d
    /\ (resized = false <->
        fst (getmaxyx (env s)) = (rows ls, cols ls))
    /\ (rows ls', cols ls') = fst (getmaxyx (env s)).
Proof.
  intros Fr.
  destruct (frame_unfold v ls s) as (tnow & mv & s2 & E2 & E).
  destruct (resize_cases v ls s) as (Hr & Hc & _ & _ & _ & _ & HL & Cases).
  cbv zeta in E. rewrite Fr in E. inversion E; subst ls' s'; clear E.
  set (ls1 := fst (resize v ls s)) in *.
  set (s1 := snd (resize v ls s)) in *.
  destruct (for_each_emitted (tidy (rows ls1) (cols ls1))
              (fun _ => True) (fun _ => True)
              (step v ls1 mv tnow) (tidy_nil _ _) (tidy_app _ _))
    with (P0 := P ls1) (s := s2) as (d & Ed & Td & _).
  - intros p s0 _. destruct (step_tidy v ls1 mv tnow p s0) as (d & A & B).
    exists d. auto.
  - apply Forall_forall. auto.
  - unfold emitted in Ed. cbn [screen rows cols with_P].
    rewrite HL in Td.
    destruct (getmaxyx (env s)) as [[newr newc] w1]. cbn [fst snd] in *.
    destruct Cases as [(A & B & _ & Sc) | (A & Sc & _)].
    + exists false, d. rewrite Ed, E2, Sc. split.
      { cbn [app]. rewrite <- !app_assoc. reflexivity. }
      split; [exact Td|]. split; [|congruence].
      split; intros _; congruence.
    + exists true, d. rewrite Ed, E2, Sc. split.
      { cbn [app]. rewrite <- !app_assoc. reflexivity. }
      split; [exact Td|]. split; [|congruence].
      split; [discriminate|]. intros X. inversion X; subst. tauto.
Qed.

Lemma endwins_app (d1 d2 : list call) :
  endwins (d1 ++ d2) = (endwins d1 + endwins d2)%nat.
Proof. unfold endwins. rewrite filter_app, length_app. reflexivity. Qed.

Lemma drawing_endwins (d : list call) : Forall drawing d -> endwins d = 0%nat.
Proof.
  induction 1 as [|c d Hc _ IH]; [reflexivity|].
  change (c :: d) with ([c] ++ d). rewrite endwins_app, IH.
  destruct c; cbn in Hc; try contradiction; reflexivity.
Qed.

Lemma frame_endwins (v : variant) (ls ls' : loop_state F) (s s' : proc world) :
  frame v ls s = (ls', s') ->
  exists d, screen s' = screen s ++ d /\ endwins d = 0%nat.
Proof.
  intros Fr. destruct (frame_shape v ls ls' s s' Fr)
    as (resized & d & E & (D & _) & _).
  eexists. split; [exact E|].
  rewrite !endwins_app, (drawing_endwins d D). destruct resized; reflexivity.
Qed.

Lemma while_1_endwins (v : variant) (fuel : nat) (ls : loop_state F)
    (s s' : proc world) (o : outcome F) :
  while_1 v fuel ls s = (o, s') ->
  exists d, screen s' = screen s ++ d /\ endwins d = 0%nat.
Proof.
  revert ls s; induction fuel as [|fuel IH]; intros ls s; cbn [while_1].
  - unfold ret. intros E; inversion E; subst. exists [].
    rewrite app_nil_r. auto.
  - unfold bind at 1. unfold tick, bind at 1, lift.
    destruct (getch (env s)) as [c w1].
    destruct (is_quit c).
    + unfold ret. intros E; inversion E; subst. exists [].
      cbn [screen]. rewrite app_nil_r. auto.
    + unfold bind. destruct (frame v (on_key v c ls) _) as [ls1 s1] eqn:Fr.
      unfold ret. intros E.
      destruct (frame_endwins _ _ _ _ _ Fr) as (d1 & E1 & Z1).
      destruct (IH _ _ E) as (d2 & E2 & Z2).
      exists (d1 ++ d2). rewrite E2, E1. cbn [screen].
      rewrite app_assoc, endwins_app, Z1, Z2. auto.
Qed.

(** The loop is left through [break] only when the key just read is [q] or
    [Q]. *)
Lemma while_1_broke (v : variant) (fuel : nat) (ls lk : loop_state F)
    (s s' : proc world) :
  while_1 v fuel ls s = (Broke lk, s') ->
  exists (k : nat) (sk : proc world),
    (k < fuel)%nat
    /\ while_1 v k ls s = (Spinning lk, sk)
    /\ is_quit (fst (getch (env sk))) = true
    /\ s' = {| env := snd (getch (env sk)); screen := screen sk |}.
Proof.
  revert ls s; induction fuel as [|fuel IH]; intros ls s; cbn [while_1].
  - unfold ret. discriminate.
  - unfold bind at 1. destruct (tick v ls s) as [[ls1|] s1] eqn:T.
    + intros E. destruct (IH _ _ E) as (k & sk & Lt & Run & Q & Es).
      exists (S k), sk. split; [lia|]. split; [|auto].
      cbn [while_1]. unfold bind at 1. rewrite T. exact Run.
    + unfold ret. intros E; inversion E; subst lk s'; clear E.
      exists 0%nat, s. split; [lia|]. split; [reflexivity|].
      revert T. unfold tick, bind, lift.
      destruct (getch (env s)) as [c w1]. cbn [fst snd].
      destruct (is_quit c).
      * unfold ret. intros E; inversion E; subst. auto.
      * destruct (frame v (on_key v c ls) _). unfold ret. discriminate.
Qed.

Lemma init_pairs_endwins (pal : list Z) (base bg : Z) (s : proc world) :
  exists more, screen (snd (init_pairs base pal bg s)) = screen s ++ more
               /\ endwins more = 0%nat.
Proof.
  revert base s; induction pal as [|c pal IH]; intros base s;
    cbn [init_pairs].
  - exists []. rewrite app_nil_r. auto.
  - unfold bind, emit.
    destruct (IH (base + 1)
                {| env := env s;
                   screen := screen s ++ [init_pair base c bg] |})
      as [more [E1 E2]].
    exists (init_pair base c bg :: more).
    rewrite E1. cbn [screen]. rewrite <- app_assoc. split; [reflexivity|].
    change (init_pair base c bg :: more)
      with ([init_pair base c bg] ++ more).
    rewrite endwins_app, E2. reflexivity.
Qed.

Lemma setup_colors_endwins (v : variant) (s : proc world) :
  exists more, screen (snd (setup_colors v s)) = screen s ++ more
               /\ endwins more = 0%nat.
Proof.
  unfold setup_colors, bind, ask, when.
  destruct (has_colors (env s)).
  - unfold emit at 1 2 3 4 5. cbn [env screen].
    destruct v.
    + unfold ret. cbn [snd screen]. eexists.
      repeat rewrite <- app_assoc. split; reflexivity.
    + match goal with
      | |- context [if ?c then _ else _] => destruct c
      end;
      match goal with
      | |- context [init_pairs ?b ?l ?g ?s0] =>
          destruct (init_pairs_endwins l b g s0) as [more [E Z0]]
      end; rewrite E; cbn [screen]; eexists;
      repeat rewrite <- app_assoc; (split; [reflexivity|]);
      rewrite !endwins_app, Z0; reflexivity.
  - unfold ret. exists []. rewrite app_nil_r. auto.
Qed.

Lemma preamble_endwins (v : variant) (s : proc world) :
  exists more,
    screen (snd (preamble v s)) = screen s ++ initscr :: more
    /\ endwins more = 0%nat.
Proof.
  unfold preamble. unfold bind. unfold ask, lift at 1.
  unfold emit. cbn [env screen].
  match goal with
  | |- context [setup_colors v ?s0] =>
      destruct (setup_colors_endwins v s0) as [more [E Z0]];
      destruct (setup_colors v s0) as [[] s1]
  end.
  unfold lift. destruct (getmaxyx (env s1)) as [sz w1].
  cbn [snd screen] in *. rewrite E. eexists.
  repeat rewrite <- app_assoc. cbn [app]. split; [reflexivity|].
  change (noecho :: curs_set 0 :: keypad true :: nodelay true :: timeout 0
          :: more)
    with ([noecho; curs_set 0; keypad true; nodelay true; timeout 0]
          ++ more).
  rewrite endwins_app, Z0. reflexivity.
Qed.

Lemma allocate_cases (v : variant) (sz : Z * Z) (s : proc world) :
  (calloc (env s) (swarm_size v (fst sz) (snd sz)) = false
   /\ allocate v sz s
      = (inl 1, {| env := env s; screen := screen s ++ [endwin] |}))
  \/ (calloc (env s) (swarm_size v (fst sz) (snd sz)) = true
      /\ exists ls0 s0, allocate v sz s = (inr ls0, s0)
                        /\ screen s0 = screen s).
Proof.
  unfold allocate, bind, ask.
  destruct (calloc (env s) _); cbn [negb]; [right | left]; split; auto.
  match goal with
  | |- context [for_each ?b ?l ?s0] =>
      pose proof (for_each_silent b
                    (fun p s => respawn_screen v p (snd sz) (fst sz) s)
                    l s0) as Sc;
      destruct (for_each b l s0) as [P' s2]
  end.
  unfold ret. cbn [snd] in Sc. eauto.
Qed.

End Emitted.

(** X1. Whatever the terminal size and the swarm, a frame writes characters
    only inside the [rows] x [cols] it has just read: every [mvaddch] of the
    frame has [0 <= x < cols] and [0 <= y < rows]. *)
Theorem frame_draws_inside_the_screen :
  forall (FO : FloatOps) (W : World) (v : variant) (ls : loop_state F)
         (s : proc world),
    let ls' := fst (frame v ls s) in
    let s' := snd (frame v ls s) in
    (rows ls', cols ls') = fst (getmaxyx (env s))
    /\ exists d, screen s' = screen s ++ d
                 /\ Forall (on_screen (rows ls') (cols ls')) d.
Proof.
  intros FO W v ls s ls' s'.
  destruct (frame_shape v ls ls' s s' (surjective_pairing _))
    as (resized & d & E & (_ & On & _) & _ & Sz).
  split; [exact Sz|]. eexists. split; [exact E|].
  rewrite !Forall_app. repeat split; auto.
  - destruct resized; repeat constructor.
  - repeat constructor.
  - repeat constructor.
Qed.

(** X2. Within a frame every [attron] is undone by the [attroff] of the same
    attribute, innermost first: whatever attributes were on before the
    frame are the ones that are on after it. *)
Theorem frame_attributes_are_nested :
  forall (FO : FloatOps) (W : World) (v : variant) (ls : loop_state F)
         (s : proc world),
    exists d, screen (snd (frame v ls s)) = screen s ++ d
              /\ forall on, nesting on d = Some on.
Proof.
  intros FO W v ls s.
  destruct (frame_shape v ls _ s _ (surjective_pairing _))
    as (resized & d & E & (_ & _ & Ne & _) & _).
  eexists. split; [exact E|]. intros on.
  rewrite nesting_app.
  replace (nesting on (if resized then [clear] else [])) with (Some on)
    by (destruct resized; reflexivity).
  cbn [app nesting]. rewrite nesting_app, Ne. reflexivity.
Qed.

(** X3. A frame writes at most one character per particle; its trace is an
    optional [clear] (exactly when the size read differs from the one
    held), [erase], drawing calls only, [refresh] and [usleep(FPS_US)]. *)
Theorem frame_trace_layout :
  forall (FO : FloatOps) (W : World) (v : variant) (ls : loop_state F)
         (s : proc world),
    exists (resized : bool) (d : list call),
      screen (snd (frame v ls s))
      = screen s ++ (if resized then [clear] else []) ++ [erase] ++ d
        ++ [refresh; usleep (FPS_US v)]
      /\ Forall drawing d
      /\ (writes d <= List.length (P ls))%nat
      /\ (resized = false <-> fst (getmaxyx (env s)) = (rows ls, cols ls)).
Proof.
  intros FO W v ls s.
  destruct (frame_shape v ls _ s _ (surjective_pairing _))
    as (resized & d & E & (D & _ & _ & Wr) & Rz & _).
  exists resized, d. auto.
Qed.

(** X4. For one particle the loop body adds to the trace either nothing or
    the calls of exactly one cell: attributes on, one [mvaddch] at the
    rounded position with the glyph the particle has after the step, the
    same attributes off in reverse order. The colour pair is 1 or a pair of
    the palette [BH_PAIR_BASE .. BH_PAIR_BASE + BH_PAIR_COUNT - 1], and
    [A_BLINK] is never on without [A_BOLD]. *)
Theorem step_draws_one_cell :
  forall (FO : FloatOps) (W : World) (v : variant) (ls : loop_state F)
         (maxr_vis tnow : F) (p : Particle F) (s : proc world),
    let pl := place (cols ls) (rows ls) tnow p in
    let p' := fst (step v ls maxr_vis tnow p s) in
    exists d : list call,
      screen (snd (step v ls maxr_vis tnow p s)) = screen s ++ d
      /\ (d = []
          \/ exists ats : list attr,
              d = map attron ats ++ [mvaddch (y pl) (x pl) (ch p')]
                  ++ map attroff (rev ats)
              /\ (forall n, In (COLOR_PAIR n) ats ->
                             n = 1
                             \/ (1 <= BH_PAIR_COUNT ls ->
                                 BH_PAIR_BASE ls <= n
                                 <= BH_PAIR_BASE ls + BH_PAIR_COUNT ls - 1))
              /\ (In A_BLINK ats -> In A_BOLD ats)).
Proof.
  intros FO W v ls maxr_vis tnow p s pl p'.
  destruct (step_emitted v ls maxr_vis tnow p s)
    as (d & E & [-> | (_ & ats & -> & A & B)]).
  - exists []. split; [exact E | left; reflexivity].
  - eexists. split; [exact E|]. right. exists ats. auto.
Qed.

(** X5. On a resize every particle of the swarm is respawned with the new
    size, [clear] is the only call made, and the new size is stored; when
    the size read is the one held, nothing changes and no call is made. *)
Theorem resize_respawns_every_particle :
  forall (FO : FloatOps) (W : World) (v : variant) (ls : loop_state F)
         (s : proc world),
    let sz := fst (getmaxyx (env s)) in
    let ls1 := fst (resize v ls s) in
    let s1 := snd (resize v ls s) in
    (sz = (rows ls, cols ls) -> ls1 = ls /\ screen s1 = screen s)
    /\ (sz <> (rows ls, cols ls) ->
        rows ls1 = fst sz /\ cols ls1 = snd sz
        /\ screen s1 = screen s ++ [clear]
        /\ Forall2
             (fun p p' =>
                exists s0, p' = fst (respawn v p (snd sz) (fst sz) s0))
             (P ls) (P ls1)).
Proof.
  intros FO W v ls s sz ls1 s1.
  destruct (resize_cases v ls s)
    as (Hr & Hc & _ & _ & _ & _ & _ & Cases).
  fold sz ls1 s1 in Hr, Hc, Cases.
  split; intros Hsz.
  - destruct Cases as [(_ & _ & A & B) | ([A | A] & _)]; auto;
      rewrite Hsz in A; cbn in A; congruence.
  - destruct Cases as [(A & B & _) | (_ & A & B)]; auto.
    exfalso. apply Hsz. destruct sz. cbn in *. congruence.
Qed.

Lemma resize_respawns_every_particle_witness :
  screen (snd (@resize Scenario.B SimWorld OneMode Scenario.ls_80x24
                 (Scenario.boot Scenario.spawn_edge)))
  = [clear]
  /\ fst (@resize Scenario.B SimWorld OneMode Scenario.ls_80x24
            (Scenario.boot Scenario.quits))
     = Scenario.ls_80x24.
Proof.
  split.
  - assert (H : fst (@getmaxyx SimWorld
                       (env (Scenario.boot Scenario.spawn_edge)))
                <> (rows Scenario.ls_80x24, cols Scenario.ls_80x24)).
    { intros H. revert H. vm_compute. discriminate. }
    exact (proj1 (proj2 (proj2
             (proj2 (resize_respawns_every_particle Scenario.B SimWorld
                       OneMode Scenario.ls_80x24
                       (Scenario.boot Scenario.spawn_edge)) H)))).
  - exact (proj1
             (proj1 (resize_respawns_every_particle Scenario.B SimWorld
                       OneMode Scenario.ls_80x24
                       (Scenario.boot Scenario.quits)) eq_refl)).
Defined.

(** X6. [main] returns 1 only when [calloc] gave no block, and 0 only after
    an iteration whose key was [q] or [Q]; it returns nothing else. *)
Theorem main_exit_status :
  forall (FO : FloatOps) (W : World) (v : variant) (fuel : nat)
         (s s' : proc world) (code : Z),
    main v fuel s = (Some code, s') ->
    let sz := fst (preamble v s) in
    let s1 := snd (preamble v s) in
    (code = 1
     /\ calloc (env s1) (swarm_size v (fst sz) (snd sz)) = false)
    \/ (code = 0
        /\ calloc (env s1) (swarm_size v (fst sz) (snd sz)) = true
        /\ exists (ls0 lk : loop_state F) (s0 sk : proc world) (k : nat),
            allocate v sz s1 = (inr ls0, s0)
            /\ (k < fuel)%nat
            /\ while_1 v k ls0 s0 = (Spinning lk, sk)
            /\ is_quit (fst (getch (env sk))) = true).
Proof.
  intros FO W v fuel s s' code. unfold main, startup.
  unfold bind at 1 2. destruct (preamble v s) as [sz s1]. cbn [fst snd].
  destruct (allocate_cases v sz s1) as [(Cal & ->) | (Cal & ls0 & s0 & -> & _)].
  - unfold ret. intros E; inversion E. auto.
  - unfold bind at 1. destruct (while_1 v fuel ls0 s0) as [[lk|lk] sw] eqn:Run.
    + unfold bind, emit, ret. intros E; inversion E; subst.
      right. split; [reflexivity|]. split; [exact Cal|].
      destruct (while_1_broke v fuel ls0 lk s0 sw Run)
        as (k & sk & Lt & Rk & Q & _).
      exists ls0, lk, s0, sk, k. auto.
    + unfold ret. discriminate.
Qed.

Lemma main_exit_status_witness :
  @calloc SimWorld
    (env (snd (@preamble SimWorld OneMode (Scenario.boot Scenario.quits))))
    (@swarm_size OneMode
       (fst (fst (@preamble SimWorld OneMode (Scenario.boot Scenario.quits))))
       (snd (fst (@preamble SimWorld OneMode
                    (Scenario.boot Scenario.quits)))))
  = true.
Proof.
  pose (r := @main Scenario.B SimWorld OneMode 1
                (Scenario.boot Scenario.quits)).
  assert (F : fst r = Some 0) by (vm_compute; reflexivity).
  assert (E : r = (Some 0, snd r))
    by (rewrite <- F; apply surjective_pairing).
  destruct (main_exit_status Scenario.B SimWorld OneMode 1 _ _ _ E)
    as [[C _] | (_ & A & _)]; [discriminate C | exact A].
Defined.

(** X7. Whenever [main] returns, [initscr] is the first call it made and
    [endwin] the last, and [endwin] was called exactly once. *)
Theorem main_restores_the_terminal_once :
  forall (FO : FloatOps) (W : World) (v : variant) (fuel : nat)
         (s s' : proc world) (code : Z),
    main v fuel s = (Some code, s') ->
    exists d, screen s' = screen s ++ initscr :: d ++ [endwin]
              /\ endwins d = 0%nat.
Proof.
  intros FO W v fuel s s' code. unfold main, startup.
  unfold bind at 1 2.
  destruct (preamble_endwins v s) as (more & Pre & Z0).
  destruct (preamble v s) as [sz s1]. cbn [fst snd] in *.
  destruct (allocate_cases v sz s1) as [(_ & ->) | (_ & ls0 & s0 & -> & Sc)].
  - unfold ret. intros E; inversion E; subst. cbn [screen].
    exists more. rewrite Pre. split; [|exact Z0].
    rewrite <- app_assoc. reflexivity.
  - unfold bind at 1. destruct (while_1 v fuel ls0 s0) as [[lk|lk] sw] eqn:Run.
    + destruct (while_1_endwins v fuel ls0 s0 sw _ Run) as (dw & Ew & Zw).
      unfold bind, emit, ret. intros E; inversion E; subst. cbn [screen].
      exists (more ++ dw ++ [free]).
      rewrite Ew, Sc, Pre, !endwins_app, Z0, Zw.
      split; [|reflexivity].
      rewrite <- ?app_assoc. cbn [app]. rewrite <- ?app_assoc. reflexivity.
    + unfold ret. discriminate.
Qed.

Lemma main_restores_the_terminal_once_witness :
  exists d,
    screen (snd (@main Scenario.B SimWorld TwoModes 1
                   (Scenario.boot Scenario.no_memory)))
    = screen (Scenario.boot Scenario.no_memory) ++ initscr :: d ++ [endwin]
    /\ endwins d = 0%nat.
Proof.
  pose (r := @main Scenario.B SimWorld TwoModes 1
                (Scenario.boot Scenario.no_memory)).
  assert (F : fst r = Some 1) by (vm_compute; reflexivity).
  assert (E : r = (Some 1, snd r))
    by (rewrite <- F; apply surjective_pairing).
  exact (main_restores_the_terminal_once Scenario.B SimWorld TwoModes 1
           _ _ _ E).
Defined.

(** X8. With colours, the file with two colour modes registers with
    [init_pair] the three green pairs and every pair of the palette that
    [main] computes from the same [COLORS]: pairs 20 to 28 when
    [COLORS >= 256], pairs 10 to 16 otherwise, all on a black background. *)
Theorem palette_is_registered :
  forall (W : World) (s : proc world) (n : Z),
    has_colors (env s) = true ->
    let wide := has_colors (env s) && (COLORS (env s) >=? 256) in
    let base := if wide then 20 else 10 in
    let count := if wide then 9 else 7 in
    (1 <= n <= 3 ->
     In (init_pair n COLOR_GREEN (-1)) (screen (snd (setup_colors TwoModes s))))
    /\ (base <= n <= base + count - 1 ->
        exists fg,
          In (init_pair n fg COLOR_BLACK)
            (screen (snd (setup_colors TwoModes s)))).
Proof.
  intros W s n Hc wide base count. subst wide base count. rewrite Hc.
  unfold setup_colors, bind, ask, when. rewrite Hc.
  unfold emit at 1 2 3 4 5. cbv beta iota. cbn [env screen andb].
  destruct (COLORS (env s) >=? 256) eqn:Wd; cbn [init_pairs];
    unfold bind, emit, ret; cbn [env screen snd Z.add Pos.add Pos.succ];
    rewrite ?Wd; cbv beta iota; cbn [env screen snd];
    (split; intros Hn;
     [ assert (E : n = 1 \/ n = 2 \/ n = 3) by lia
     | first
         [ assert (E : n = 20 \/ n = 21 \/ n = 22 \/ n = 23 \/ n = 24
                       \/ n = 25 \/ n = 26 \/ n = 27 \/ n = 28) by lia
         | assert (E : n = 10 \/ n = 11 \/ n = 12 \/ n = 13 \/ n = 14
                       \/ n = 15 \/ n = 16) by lia ] ]);
    repeat (destruct E as [E | E]); subst n;
    try eexists; rewrite ?in_app_iff; cbn [In]; intuition eauto.
Qed.

Lemma palette_is_registered_witness :
  exists fg,
    In (init_pair 28 fg COLOR_BLACK)
      (screen (snd (@setup_colors SimWorld TwoModes
                      (Scenario.boot Scenario.resized)))).
Proof.
  destruct (palette_is_registered SimWorld (Scenario.boot Scenario.resized)
              28 ltac:(reflexivity)) as [_ A].
  apply A. vm_compute. split; discriminate.
Defined.

(** ** What holds of every call and of every particle, all along the loop *)

Section Invariant.

Context {FO : FloatOps} {W : World}.
Variable v : variant.
Variable Q : call -> Prop.
Variable Inv : Particle F -> Prop.

Hypothesis Q_clear : Q clear.
Hypothesis Q_erase : Q erase.
Hypothesis Q_refresh : Q refresh.
Hypothesis Q_usleep : Q (usleep (FPS_US v)).
Hypothesis step_inv :
  forall ls maxr_vis tnow p s,
    Inv p ->
    exists d, emitted (step v ls maxr_vis tnow p) s d
              /\ Forall Q d
              /\ Inv (fst (step v ls maxr_vis tnow p s)).
Hypothesis respawn_inv :
  forall p cols rows s, Inv (fst (respawn v p cols rows s)).

Lemma frame_invariant (ls : loop_state F) (s : proc world) :
  Forall Inv (P ls) ->
  exists d, screen (snd (frame v ls s)) = screen s ++ d
            /\ Forall Q d
            /\ Forall Inv (P (fst (frame v ls s))).
Proof.
  intros HP.
  destruct (frame_unfold v ls s) as (tnow & mv & s2 & E2 & E).
  destruct (resize_cases v ls s) as (_ & _ & _ & _ & _ & _ & _ & Cases).
  cbv zeta in E. rewrite E. clear E.
  set (ls1 := fst (resize v ls s)) in *.
  set (s1 := snd (resize v ls s)) in *.
  assert (HP1 : Forall Inv (P ls1)).
  { destruct Cases as [(_ & _ & -> & _) | (_ & _ & F2)]; [exact HP|].
    clear -F2 respawn_inv. induction F2 as [|p p' l l' [s0 ->] _ IH];
      constructor; auto. }
  destruct (for_each_emitted (fun _ => Forall Q) Inv Inv
              (step v ls1 mv tnow))
    with (P0 := P ls1) (s := s2) as (d & Ed & Gd & Od); auto.
  - intros _ _ d1 d2 A B. apply Forall_app. auto.
  - unfold emitted in Ed. cbn [fst snd screen with_P P].
    assert (S1 : exists pre, screen s1 = screen s ++ pre /\ Forall Q pre).
    { destruct Cases as [(_ & _ & _ & ->) | (_ & -> & _)].
      - exists []. rewrite app_nil_r. split; [reflexivity | constructor].
      - exists [clear]. split; [reflexivity | repeat constructor; assumption]. }
    destruct S1 as (pre & S1 & Gpre).
    exists (pre ++ [erase] ++ d ++ [refresh; usleep (FPS_US v)]).
    rewrite Ed, E2, S1. split.
    { rewrite <- !app_assoc. reflexivity. }
    split; [|exact Od].
    apply Forall_app; split; [exact Gpre|].
    apply Forall_app; split; [constructor; [exact Q_erase | constructor]|].
    apply Forall_app; split; [exact Gd|].
    constructor; [exact Q_refresh|].
    constructor; [exact Q_usleep | constructor].
Qed.

Lemma while_1_invariant (fuel : nat) (ls : loop_state F)
    (s s' : proc world) (o : outcome F) :
  while_1 v fuel ls s = (o, s') ->
  Forall Inv (P ls) ->
  exists d, screen s' = screen s ++ d
            /\ Forall Q d
            /\ Forall Inv (P (final o)).
Proof.
  revert ls s; induction fuel as [|fuel IH]; intros ls s; cbn [while_1].
  - unfold ret. intros E HP; inversion E; subst. exists [].
    rewrite app_nil_r. split; [reflexivity|].
    split; [apply Forall_nil | exact HP].
  - unfold bind at 1. unfold tick, bind at 1, lift.
    destruct (getch (env s)) as [c w1].
    destruct (is_quit c).
    + unfold ret. intros E HP; inversion E; subst. exists [].
      cbn [screen]. rewrite app_nil_r. split; [reflexivity|].
      split; [apply Forall_nil | exact HP].
    + unfold bind. intros E HP.
      assert (HP' : Forall Inv (P (on_key v c ls))).
      { unfold on_key, toggle. destruct v; [exact HP|].
        destruct (is_toggle c); exact HP. }
      destruct (frame_invariant (on_key v c ls)
                  {| env := w1; screen := screen s |} HP')
        as (d1 & E1 & G1 & O1).
      destruct (frame v (on_key v c ls) _) as [ls1 s1].
      cbn [fst snd screen] in *. unfold ret in E.
      destruct (IH _ _ E O1) as (d2 & E2 & G2 & O2).
      exists (d1 ++ d2). rewrite E2, E1, app_assoc.
      split; [reflexivity|]. split; [|exact O2].
      apply Forall_app; auto.
Qed.

Lemma allocate_invariant (sz : Z * Z) (ls0 : loop_state F)
    (s s0 : proc world) :
  allocate v sz s = (inr ls0, s0) -> Forall Inv (P ls0).
Proof.
  unfold allocate, bind, ask.
  destruct (negb (calloc (env s) _)); [unfold emit, ret; discriminate|].
  match goal with
  | |- context [for_each ?b ?l ?s1] =>
      destruct (for_each_emitted (fun _ _ => True) (fun _ => True) Inv
                  b I (fun _ _ _ _ _ _ => I)) with (P0 := l) (s := s1)
        as (_ & _ & _ & O);
      [ intros p s2 _; exists []; unfold emitted;
        rewrite respawn_screen, app_nil_r;
        split; [reflexivity|]; split; [exact I | apply respawn_inv]
      | apply Forall_forall; auto
      | destruct (for_each b l s1) as [P' s2] ]
  end.
  unfold ret. intros E; inversion E; subst. exact O.
Qed.

End Invariant.

Section GlyphInvariant.

Context {FO : FloatOps} {W : World}.
Hypothesis rand_nonneg : forall w, 0 <= fst (rand w).

Lemma glyph_of_in (k : Z) : 0 <= k -> In (glyph_of k) glyphs.
Proof.
  intros Hk. eapply nth_error_In. apply glyph_of_nth. exact Hk.
Qed.

Lemma respawn_glyph (v : variant) (p : Particle F) (cols rows : Z)
    (s : proc world) :
  has_glyph (fst (respawn v p cols rows s)).
Proof.
  destruct (respawn_ch v p cols rows s) as [w E].
  unfold has_glyph. rewrite E. apply glyph_of_in, rand_nonneg.
Qed.

Lemma writes_glyphs_bracket (ats : list attr) (y x : Z) (c : ascii) :
  In c glyphs -> writes_glyphs (bracket ats y x c).
Proof.
  intros Hc. unfold writes_glyphs, bracket. rewrite !Forall_app.
  repeat split.
  - apply Forall_forall. intros q Hq. apply in_map_iff in Hq.
    destruct Hq as (a & <- & _). exact I.
  - constructor; [exact Hc | constructor].
  - apply Forall_forall. intros q Hq. apply in_map_iff in Hq.
    destruct Hq as (a & <- & _). exact I.
Qed.

Lemma step_glyph (v : variant) (ls : loop_state F) (maxr_vis tnow : F)
    (p : Particle F) (s : proc world) :
  has_glyph p ->
  exists d, emitted (step v ls maxr_vis tnow p) s d
            /\ writes_glyphs d
            /\ has_glyph (fst (step v ls maxr_vis tnow p s)).
Proof.
  intros Hp.
  assert (G : has_glyph (fst (step v ls maxr_vis tnow p s))).
  { unfold has_glyph.
    destruct (step_ch v ls maxr_vis tnow p s) as [-> | [w ->]].
    - exact Hp.
    - apply glyph_of_in, rand_nonneg. }
  destruct (step_emitted v ls maxr_vis tnow p s)
    as (d & E & [-> | (_ & ats & -> & _)]).
  - exists []. split; [exact E|]. split; [constructor | exact G].
  - eexists. split; [exact E|]. split; [|exact G].
    apply writes_glyphs_bracket. exact G.
Qed.

End GlyphInvariant.

(** X9. With a [rand()] that is never negative, every particle of the swarm
    holds a character of [set] from the first iteration on, and every
    character the loop writes to the screen is one of them: the NUL of the
    cells [calloc] returns is never drawn. *)
Theorem only_glyphs_are_drawn :
  forall (FO : FloatOps) (W : World) (v : variant) (fuel : nat)
         (s s0 : proc world) (ls0 : loop_state F),
    (forall w, 0 <= fst (rand w)) ->
    startup v s = (inr ls0, s0) ->
    Forall has_glyph (P (final (fst (while_1 v fuel ls0 s0))))
    /\ exists d, screen (snd (while_1 v fuel ls0 s0)) = screen s0 ++ d
                 /\ writes_glyphs d.
Proof.
  intros FO W v fuel s s0 ls0 Hr St.
  assert (HP : Forall has_glyph (P ls0)).
  { revert St. unfold startup. unfold bind at 1.
    destruct (preamble v s) as [sz s1].
    apply allocate_invariant. intros. apply respawn_glyph, Hr. }
  destruct (while_1_invariant v _ has_glyph I I I I
              (fun ls mv t p s1 => step_glyph Hr v ls mv t p s1)
              (fun p c r s1 => respawn_glyph Hr v p c r s1)
              fuel ls0 s0 _ _ (surjective_pairing _) HP)
    as (d & E & G & O).
  split; [exact O|]. exists d. auto.
Qed.

Lemma only_glyphs_are_drawn_witness :
  let st := Scenario.started OneMode Scenario.resized in
  Forall has_glyph
    (P (final (fst (@while_1 Scenario.B SimWorld OneMode 1 (fst st)
                      (snd st))))).
Proof.
  intros st.
  destruct
    (only_glyphs_are_drawn Scenario.B SimWorld OneMode 1
       (Scenario.boot Scenario.resized) (snd st) (fst st)
       (fun w => proj1 (Sim_rand_range w))
       ltac:(vm_compute; reflexivity)) as [A _].
  exact A.
Defined.

(** ** The spiral in exact arithmetic *)

Lemma lit_076 : @lit Exact 0.76 = (12750684 / 16777216)%R.
Proof. exact_lit 0.76%Q (S754_finite false 12750684 (-24)). Qed.

Lemma lit_135 : @lit Exact 1.35 = (11324621 / 8388608)%R.
Proof. exact_lit 1.35%Q (S754_finite false 11324621 (-23)). Qed.

Lemma lit_three : @lit Exact 3.0 = (12582912 / 4194304)%R.
Proof. exact_lit 3.0%Q (S754_finite false 12582912 (-22)). Qed.

(** The matrix [c I + k B] of [expA] stretches no vector by more than
    [sqrt 3.3334] and shrinks none by more than that. *)
Lemma spiral_matrix_bounds (t x y : R) :
  let c := cos (14529495 / 16777216 * t) in
  let k := (sin (14529495 / 16777216 * t) / (14529495 / 16777216))%R in
  let q := ((((c + k * - (1 / 2)) * x + k * - 1 * y)
             * ((c + k * - (1 / 2)) * x + k * - 1 * y))
            + ((k * 1 * x + (c + k * (1 / 2)) * y)
               * (k * 1 * x + (c + k * (1 / 2)) * y)))%R in
  (q <= 33334 / 10000 * (x * x + y * y)
   /\ x * x + y * y <= 33334 / 10000 * q)%R.
Proof.
  intros c k q.
  pose proof (sin2_cos2 (14529495 / 16777216 * t)) as SC. unfold Rsqr in SC.
  assert (Ek : (sin (14529495 / 16777216 * t)
                = k * (14529495 / 16777216))%R).
  { unfold k. field. }
  rewrite Ek in SC. fold c in SC. clearbody c k. clear Ek.
  set (u := (c * c)%R) in *. set (v := (k * k)%R) in *.
  assert (Hu : (0 <= u)%R) by (unfold u; nra).
  assert (Hv : (0 <= v)%R) by (unfold v; nra).
  assert (SC' : (u + 14529495 / 16777216 * (14529495 / 16777216) * v = 1)%R).
  { rewrite <- SC. unfold u, v. ring. }
  set (T := (2 * u + 5 / 2 * v)%R).
  set (D := (u + 3 / 4 * v)%R).
  assert (HT : (2 <= T <= 33334 / 10000)%R) by (unfold T; split; lra).
  assert (HD : (1 <= D)%R) by (unfold D; lra).
  set (n2 := (x * x + y * y)%R).
  assert (Hn : (0 <= n2)%R) by (unfold n2; nra).
  assert (Hq : (0 <= q)%R).
  { unfold q. apply Rplus_le_le_0_compat; apply Rle_0_sqr. }
  assert (Up : (0 <= T * n2 - q)%R).
  { replace (T * n2 - q)%R
      with (Rsqr ((c + k * - (1 / 2)) * y - k * - 1 * x)
            + Rsqr (k * 1 * y - (c + k * (1 / 2)) * x))%R
      by (unfold Rsqr, T, n2, q, u, v; field).
    apply Rplus_le_le_0_compat; apply Rle_0_sqr. }
  assert (Lo : (0 <= T * q - D * D * n2)%R).
  { replace (T * q - D * D * n2)%R
      with (Rsqr
              (((c + k * - (1 / 2)) * (c + k * - (1 / 2)) + k * 1 * (k * 1))
               * x
               + ((c + k * - (1 / 2)) * (k * - 1)
                  + k * 1 * (c + k * (1 / 2))) * y)
            + Rsqr
                (((c + k * - (1 / 2)) * (k * - 1)
                  + k * 1 * (c + k * (1 / 2))) * x
                 + (k * - 1 * (k * - 1)
                    + (c + k * (1 / 2)) * (c + k * (1 / 2))) * y))%R
      by (unfold Rsqr, T, D, n2, q, u, v; field).
    apply Rplus_le_le_0_compat; apply Rle_0_sqr. }
  assert (T1 : (T * n2 <= 33334 / 10000 * n2)%R)
    by (apply Rmult_le_compat_r; lra).
  assert (T2 : (T * q <= 33334 / 10000 * q)%R)
    by (apply Rmult_le_compat_r; lra).
  assert (D1 : (1 * n2 <= D * D * n2)%R).
  { apply Rmult_le_compat_r; [exact Hn|]. nra. }
  split; lra.
Qed.

(** The distance from the centre, in exact arithmetic. *)
Lemma place_exact_bounds :
  forall (cols rows : Z) (tnow : R) (p : Particle R),
    let pl := @place Exact cols rows tnow p in
    let n2 := (vx0 p * vx0 p + vy0 p * vy0 p)%R in
    age pl = ((tnow - born p) * (11324621 / 8388608))%R
    /\ (69 / 100 * (exp (- age pl) * n2) <= r pl * r pl
        <= 771 / 100 * (exp (- age pl) * n2))%R
    /\ (0 <= r pl)%R.
Proof.
  intros cols rows tnow p pl n2.
  assert (Eage : age pl = ((tnow - born p) * (11324621 / 8388608))%R).
  { unfold pl, place, SPEED. cbn [age]. rewrite lit_135. reflexivity. }
  assert (Er : (r pl * r pl
                = (8388608 / 4194304 * (12750684 / 16777216))
                  * (8388608 / 4194304 * (12750684 / 16777216))
                  * (exp (- age pl)
                     * ((((cos (14529495 / 16777216 * age pl)
                           + sin (14529495 / 16777216 * age pl)
                             / (14529495 / 16777216) * - (1 / 2)) * vx0 p
                          + sin (14529495 / 16777216 * age pl)
                            / (14529495 / 16777216) * - 1 * vy0 p)
                         * ((cos (14529495 / 16777216 * age pl)
                             + sin (14529495 / 16777216 * age pl)
                               / (14529495 / 16777216) * - (1 / 2)) * vx0 p
                            + sin (14529495 / 16777216 * age pl)
                              / (14529495 / 16777216) * - 1 * vy0 p))
                        + ((sin (14529495 / 16777216 * age pl)
                            / (14529495 / 16777216) * 1 * vx0 p
                            + (cos (14529495 / 16777216 * age pl)
                               + sin (14529495 / 16777216 * age pl)
                                 / (14529495 / 16777216) * (1 / 2)) * vy0 p)
                           * (sin (14529495 / 16777216 * age pl)
                              / (14529495 / 16777216) * 1 * vx0 p
                              + (cos (14529495 / 16777216 * age pl)
                                 + sin (14529495 / 16777216 * age pl)
                                   / (14529495 / 16777216) * (1 / 2))
                                * vy0 p)))))%R).
  { unfold pl, place. cbn [age r]. rewrite expA_exact. cbv zeta.
    cbn [M00 M01 M10 M11]. unfold RADIUS_MULT, SCALE.
    rewrite lit_two, lit_076. cbn [Exact F fmul fadd fsub sqrtf].
    set (a := ((tnow - born p) * @SPEED Exact)%R).
    assert (E : exp (- a) = (exp (- (1 / 2) * a) * exp (- (1 / 2) * a))%R).
    { rewrite <- exp_plus. f_equal. lra. }
    rewrite E. set (et := exp (- (1 / 2) * a)).
    rewrite sqrt_sqrt;
      [field | apply Rplus_le_le_0_compat; apply Rle_0_sqr]. }
  destruct (spiral_matrix_bounds (age pl) (vx0 p) (vy0 p)) as [Up Lo].
  cbv zeta in Up, Lo. fold n2 in Up, Lo.
  set (q := (_ + _)%R) in Er, Up, Lo at 1.
  pose proof (exp_pos (- age pl)) as E0.
  assert (Hn : (0 <= n2)%R) by (unfold n2; nra).
  assert (B : (69 / 100 * (exp (- age pl) * n2) <= r pl * r pl
               <= 771 / 100 * (exp (- age pl) * n2))%R).
  { rewrite Er.
    assert (exp (- age pl) * q <= exp (- age pl) * (33334 / 10000 * n2))%R
      by (apply Rmult_le_compat_l; lra).
    assert (exp (- age pl) * n2 <= exp (- age pl) * (33334 / 10000 * q))%R
      by (apply Rmult_le_compat_l; lra).
    split; lra. }
  assert (R0 : (0 <= r pl)%R).
  { unfold pl, place. cbn [r Exact sqrtf]. apply sqrt_pos. }
  split; [exact Eage|]. split; [exact B | exact R0].
Qed.

(** The first disjunct of the test of the loop body, over the reals. *)
Lemma below_MIN_R (cols rows : Z) (pl : placement R) :
  (0 <= r pl)%R ->
  (r pl * r pl < 9)%R ->
  @must_respawn Exact cols rows pl = true.
Proof.
  intros R0 H. unfold must_respawn, MIN_R. rewrite lit_three.
  cbn [Exact F flt]. unfold ExactR.ltb.
  destruct (Rlt_dec _ _) as [_ | N]; [reflexivity|].
  exfalso. apply N. apply Rnot_le_lt. intros Hge.
  assert (3 * 3 <= r pl * r pl)%R by (apply Rmult_le_compat; lra).
  lra.
Qed.

(** X10. In exact arithmetic the distance [r] of a particle from the centre
    decays like [e^{-age/2}]: its square lies between 0.69 and 7.71 times
    [e^{-age} |v0|^2], with [age = (tnow - born) * 1.35f]. Hence every
    particle is respawned once [7.71 e^{-age} |v0|^2] is below 9, and none
    is respawned for its distance while [0.69 e^{-age} |v0|^2] is at least
    9. *)
Theorem particle_spirals_inward :
  forall (cols rows : Z) (tnow : R) (p : Particle R),
    let pl := @place Exact cols rows tnow p in
    let n2 := (vx0 p * vx0 p + vy0 p * vy0 p)%R in
    age pl = ((tnow - born p) * (11324621 / 8388608))%R
    /\ (69 / 100 * (exp (- age pl) * n2) <= r pl * r pl
        <= 771 / 100 * (exp (- age pl) * n2))%R
    /\ ((771 / 100 * (exp (- age pl) * n2) < 9)%R ->
        @must_respawn Exact cols rows pl = true)
    /\ ((9 <= 69 / 100 * (exp (- age pl) * n2))%R ->
        @flt Exact (r pl) (@MIN_R Exact) = false).
Proof.
  intros cols rows tnow p pl n2.
  destruct (place_exact_bounds cols rows tnow p) as (Eage & B & R0).
  fold pl n2 in Eage, B, R0. clearbody pl n2. cbn [Exact F] in *.
  split; [exact Eage|]. split; [exact B|]. split.
  - intros H. apply below_MIN_R; [exact R0|].
    eapply Rle_lt_trans; [exact (proj2 B) | exact H].
  - intros H. unfold MIN_R. rewrite lit_three.
    cbn [Exact F flt]. unfold ExactR.ltb.
    destruct (Rlt_dec _ _) as [L | _]; [|reflexivity].
    exfalso.
    assert (9 <= r pl * r pl)%R
      by (eapply Rle_trans; [exact H | exact (proj1 B)]).
    assert (r pl * r pl < 3 * 3)%R
      by (apply Rmult_le_0_lt_compat; lra).
    lra.
Qed.

Lemma particle_spirals_inward_witness :
  @must_respawn Exact 80 24
    (@place Exact 80 24 0%R
       {| vx0 := 1%R; vy0 := 0%R; born := 0%R; ch := "a"%char |})
  = true.
Proof.
  destruct (particle_spirals_inward 80 24 0%R
              {| vx0 := 1%R; vy0 := 0%R; born := 0%R; ch := "a"%char |})
    as (Ea & _ & A & _).
  apply A. rewrite Ea. cbn [vx0 vy0 born].
  replace (- ((0 - 0) * (11324621 / 8388608)))%R with 0%R by lra.
  rewrite exp_0. lra.
Defined.

(** ** What a frame does to the particles *)

Section Orbit.

Context {FO : FloatOps} {W : World}.
Variable v : variant.

Lemma step_orbit (ls : loop_state F) (maxr_vis tnow : F) (p : Particle F)
    (s : proc world) :
  must_respawn (cols ls) (rows ls) (place (cols ls) (rows ls) tnow p) = false ->
  vx0 (fst (step v ls maxr_vis tnow p s)) = vx0 p
  /\ vy0 (fst (step v ls maxr_vis tnow p s)) = vy0 p
  /\ born (fst (step v ls maxr_vis tnow p s)) = born p.
Proof.
  intros H. unfold step. rewrite H.
  unfold rand_char. unfold bind, lift, ask, ret. cbv beta.
  destruct (rand (env s)) as [k w1]. cbn [env screen].
  destruct (CInt.rem k 28 =? 0); cbv beta iota; cbn [env screen].
  - destruct (rand w1) as [k2 w2]. cbv beta iota. cbn [env screen fst].
    match goal with
    | |- context [let (_, _) := ?d in _] => destruct d
    end.
    cbn. auto.
  - match goal with
    | |- context [let (_, _) := ?d in _] => destruct d
    end.
    cbn. auto.
Qed.

Lemma frame_clock (ls : loop_state F) (s : proc world) :
  let ls1 := fst (resize v ls s) in
  let tnow := fst (now_seconds (snd (resize v ls s))) in
  exists (maxr_vis : F) (s2 : proc world),
    P (fst (frame v ls s))
    = fst (for_each (step v ls1 maxr_vis tnow) (P ls1) s2).
Proof.
  intros ls1 tnow. unfold frame. unfold bind at 1.
  subst ls1 tnow. destruct (resize v ls s) as [l0 s0]. cbn [fst snd].
  unfold now_seconds. unfold bind, emit, lift, ret. cbn [env screen].
  destruct (clock_gettime (env s0)) as [[sec nsec] w2]. cbn [fst snd].
  match goal with
  | |- context [for_each (step v _ ?mv _) _ ?s2] => exists mv, s2
  end.
  destruct (for_each _ _ _) as [P' s3]. reflexivity.
Qed.

End Orbit.

(** X11. A frame stores no position: after the resize test, a particle that
    fails the test of the loop body (too close to the centre, or off the
    screen, at the time the frame read from the clock) is replaced by a
    respawned one, and every other particle keeps its launch vector and its
    birth time. *)
Theorem frame_keeps_the_orbits :
  forall (FO : FloatOps) (W : World) (v : variant) (ls : loop_state F)
         (s : proc world),
    let ls1 := fst (resize v ls s) in
    let tnow := fst (now_seconds (snd (resize v ls s))) in
    Forall2
      (fun p p' =>
         let pl := place (cols ls1) (rows ls1) tnow p in
         (must_respawn (cols ls1) (rows ls1) pl = true
          /\ exists s0, p' = fst (respawn v p (cols ls1) (rows ls1) s0))
         \/ (must_respawn (cols ls1) (rows ls1) pl = false
             /\ vx0 p' = vx0 p /\ vy0 p' = vy0 p /\ born p' = born p))
      (P ls1) (P (fst (frame v ls s))).
Proof.
  intros FO W v ls s ls1 tnow.
  destruct (frame_clock v ls s) as (mv & s2 & E). fold ls1 tnow in E.
  rewrite E.
  eapply Forall2_impl; [|apply for_each_Forall2].
  intros p p' [s0 ->]. cbv zeta.
  destruct (must_respawn (cols ls1) (rows ls1)
              (place (cols ls1) (rows ls1) tnow p)) eqn:R.
  - left. split; [reflexivity|]. exists s0.
    rewrite (step_respawns v ls1 mv tnow p R). reflexivity.
  - right. split; [reflexivity|]. apply step_orbit. exact R.
Qed.

(** ** A terminal without colours *)

Section Monochrome.

Context {FO : FloatOps} {W : World}.
Hypothesis no_colors : forall w, has_colors w = false.

Lemma step_plain (v : variant) (ls : loop_state F) (maxr_vis tnow : F)
    (p : Particle F) (s : proc world) :
  exists d, emitted (step v ls maxr_vis tnow p) s d
            /\ Forall plain d /\ True.
Proof.
  unfold emitted, step.
  destruct (must_respawn _ _ _).
  { exists []. rewrite respawn_screen, app_nil_r.
    split; [reflexivity|]. split; [constructor | exact I]. }
  unfold rand_char. unfold bind, lift, ask, ret. cbv beta.
  destruct (rand (env s)) as [k w1]. cbn [env screen].
  destruct (CInt.rem k 28 =? 0); cbv beta iota; cbn [env screen].
  - destruct (rand w1) as [k2 w2]. cbv beta iota. cbn [env screen fst].
    rewrite no_colors. destruct v; unfold emit; cbn [snd screen];
      eexists; (split; [reflexivity|]); split;
      [repeat constructor | exact I | repeat constructor | exact I].
  - rewrite no_colors. destruct v; unfold emit; cbn [snd screen];
      eexists; (split; [reflexivity|]); split;
      [repeat constructor | exact I | repeat constructor | exact I].
Qed.

Lemma setup_colors_plain (v : variant) (s : proc world) :
  setup_colors v s = (tt, s).
Proof.
  unfold setup_colors, bind, ask, when. rewrite no_colors. reflexivity.
Qed.

Lemma preamble_plain (v : variant) (s : proc world) :
  screen (snd (preamble v s))
  = screen s ++ [initscr; noecho; curs_set 0; keypad true; nodelay true;
                 timeout 0].
Proof.
  unfold preamble. unfold bind. unfold ask, lift at 1.
  unfold emit. cbn [env screen]. rewrite setup_colors_plain.
  unfold lift. cbn [env screen]. destruct (getmaxyx _) as [sz w1].
  cbn [snd screen]. repeat rewrite <- app_assoc. reflexivity.
Qed.

End Monochrome.

(** X12. On a terminal without colours ([has_colors()] false) the program
    never calls [start_color], [init_pair], [attron] or [attroff], in
    either colour mode: between [initscr] and the end it only clears,
    writes characters, refreshes and sleeps. *)
Theorem no_colours_no_attributes :
  forall (FO : FloatOps) (W : World) (v : variant) (fuel : nat)
         (s : proc world),
    (forall w, has_colors w = false) ->
    exists d, screen (snd (main v fuel s)) = screen s ++ d
              /\ Forall plain d.
Proof.
  intros FO W v fuel s Hc. unfold main, startup. unfold bind at 1 2.
  pose proof (preamble_plain Hc v s) as Pre.
  destruct (preamble v s) as [sz s1]. cbn [snd] in Pre.
  destruct (allocate_cases v sz s1)
    as [(_ & ->) | (_ & ls0 & s0 & A & Sc)].
  - unfold ret. cbn [snd screen]. rewrite Pre. eexists.
    rewrite <- app_assoc. split; [reflexivity|]. repeat constructor.
  - pose proof (allocate_invariant v (fun _ => True)
                  (fun _ _ _ _ => I) sz ls0 s1 s0 A) as HP.
    rewrite A. unfold bind.
    destruct (while_1_invariant v plain (fun _ => True) I I I I
                (fun ls mv t p s2 _ => step_plain Hc v ls mv t p s2)
                (fun _ _ _ _ => I)
                fuel ls0 s0 _ _ (surjective_pairing _) HP)
      as (d & E & G & _).
    destruct (while_1 v fuel ls0 s0) as [o sk]. cbn [fst snd] in E.
    assert (G0 : Forall plain
                   [initscr; noecho; curs_set 0; keypad true; nodelay true;
                    timeout 0])
      by (repeat constructor).
    destruct o; unfold emit, ret; cbn [snd screen]; rewrite E, Sc, Pre.
    + exists ([initscr; noecho; curs_set 0; keypad true; nodelay true;
               timeout 0] ++ d ++ [free; endwin]).
      split; [repeat rewrite <- app_assoc; reflexivity|].
      apply Forall_app; split; [exact G0|].
      apply Forall_app; split; [exact G | repeat constructor].
    + exists ([initscr; noecho; curs_set 0; keypad true; nodelay true;
               timeout 0] ++ d).
      split; [repeat rewrite <- app_assoc; reflexivity|].
      apply Forall_app; split; [exact G0 | exact G].
Qed.

Lemma no_colours_no_attributes_witness :
  exists d,
    screen (snd (@main Scenario.B MonoWorld TwoModes 1
                   (Scenario.boot Scenario.quits)))
    = screen (Scenario.boot Scenario.quits) ++ d
    /\ Forall plain d.
Proof.
  exact (no_colours_no_attributes Scenario.B MonoWorld TwoModes 1
           (Scenario.boot Scenario.quits) (fun _ => eq_refl)).
Defined.

(** ** A terminal too small for the spiral *)

Section Tiny.

Context {W : World}.
Hypothesis RAND_MAX_pos : 0 < RAND_MAX.
Hypothesis rand_range : forall w, 0 <= fst (rand w) <= RAND_MAX.

Lemma exp_neg_le_1 (a : R) : (0 <= a)%R -> (exp (- a) <= 1)%R.
Proof.
  intros [H | <-].
  - rewrite <- exp_0. left. apply exp_increasing. lra.
  - rewrite Ropp_0, exp_0. lra.
Qed.

Lemma tiny_respawn (p : Particle R) (cols rows : Z) (s : proc world)
    (tnow : R) :
  1 <= cols < 2 ^ 31 ->
  1 <= rows < 2 ^ 31 ->
  Z.min cols rows <= 3 ->
  (born (fst (@respawn Exact W OneMode p cols rows s)) <= tnow)%R ->
  @must_respawn Exact cols rows
    (@place Exact cols rows tnow
       (fst (@respawn Exact W OneMode p cols rows s))) = true.
Proof.
  intros Hc Hr Hmin Hb.
  destruct (respawn_exact OneMode p cols rows s)
    as (rad & a & t & c & s1 & s' & Erad & Ea & Eresp).
  rewrite (center_exact cols Hc), (center_exact rows Hr) in Erad.
  set (maxr := Rmin (IZR (cols - 1) / 2) (IZR (rows - 1) / 2)) in *.
  assert (Hmax : (0 <= maxr <= 1)%R).
  { unfold maxr. split.
    - apply Rmin_glb.
      + assert (0 <= IZR (cols - 1))%R by (apply IZR_le; lia). lra.
      + assert (0 <= IZR (rows - 1))%R by (apply IZR_le; lia). lra.
    - destruct (Z.min_spec cols rows) as [[_ E] | [_ E]]; rewrite E in Hmin.
      + eapply Rle_trans; [apply Rmin_l|].
        assert (IZR (cols - 1) <= 2)%R by (apply IZR_le; lia). lra.
      + eapply Rle_trans; [apply Rmin_r|].
        assert (IZR (rows - 1) <= 2)%R by (apply IZR_le; lia). lra. }
  assert (Hrad : (maxr * @lit Exact 0.35 <= rad
                  <= maxr * @outer Exact OneMode)%R).
  { rewrite Erad. apply (frandf_between RAND_MAX_pos rand_range).
    pose proof (outer_exact OneMode). nra. }
  unfold outer in Hrad. rewrite lit_035, lit_095 in Hrad.
  assert (Hrad0 : (0 <= rad <= 15938355 / 16777216)%R) by (split; nra).
  rewrite Eresp in Hb |- *. cbn [fst born] in Hb |- *.
  match goal with
  | |- must_respawn _ _ (place _ _ _ ?q) = true =>
      destruct (place_exact_bounds cols rows tnow q) as (Eage & [_ A] & R0)
  end.
  cbv zeta in A. apply below_MIN_R; [exact R0|].
  eapply Rle_lt_trans; [exact A|]. clear A. rewrite Eage.
  cbn [vx0 vy0 born].
  set (age := ((tnow - t) * (11324621 / 8388608))%R).
  assert (Hage : (0 <= age)%R) by (unfold age; nra).
  pose proof (exp_neg_le_1 age Hage) as E1.
  pose proof (exp_pos (- age)) as E0.
  replace (rad * cos a * (rad * cos a) + rad * sin a * (rad * sin a))%R
    with (rad * rad * ((sin a)² + (cos a)²))%R by (unfold Rsqr; ring).
  rewrite sin2_cos2, Rmult_1_r.
  assert (rad * rad <= 15938355 / 16777216 * (15938355 / 16777216))%R
    by nra.
  assert (exp (- age) * (rad * rad) <= 1 * (rad * rad))%R
    by (apply Rmult_le_compat_r; nra).
  lra.
Qed.

End Tiny.

(** X13. On a terminal with at most three rows or three columns, in the
    file with one colour mode and in exact arithmetic, a particle that
    [respawn] has written fails the distance test [r < 3] at every later
    time: the loop body respawns it again and draws nothing for it. *)
Theorem tiny_terminal_draws_nothing :
  forall (W : World) (p : Particle R) (nc nr : Z) (s : proc world)
         (tnow : R),
    0 < RAND_MAX ->
    (forall w, 0 <= fst (rand w) <= RAND_MAX) ->
    1 <= nc < 2 ^ 31 ->
    1 <= nr < 2 ^ 31 ->
    Z.min nc nr <= 3 ->
    let p' := fst (@respawn Exact W OneMode p nc nr s) in
    (born p' <= tnow)%R ->
    @must_respawn Exact nc nr (@place Exact nc nr tnow p') = true
    /\ forall (ls : loop_state R) (maxr_vis : R) (s0 : proc world),
        cols ls = nc -> rows ls = nr ->
        @step Exact W OneMode ls maxr_vis tnow p' s0
        = @respawn Exact W OneMode p' nc nr s0
        /\ screen (snd (@step Exact W OneMode ls maxr_vis tnow p' s0))
           = screen s0.
Proof.
  intros W p nc nr s tnow RMpos Rrange Hc Hr Hmin p' Hb.
  pose proof (tiny_respawn RMpos Rrange p nc nr s tnow Hc Hr Hmin Hb)
    as M. fold p' in M.
  split; [exact M|]. intros ls mv s0 <- <-.
  rewrite (@step_respawns Exact W OneMode ls mv tnow p' M).
  split; [reflexivity | apply respawn_screen].
Qed.

Lemma tiny_terminal_draws_nothing_witness :
  let p' := fst (@respawn Exact SimWorld OneMode (@zero_particle Exact) 80 3
                   (Scenario.boot Scenario.quits)) in
  @must_respawn Exact 80 3 (@place Exact 80 3 (born p') p') = true.
Proof.
  intros p'.
  destruct
    (tiny_terminal_draws_nothing SimWorld (@zero_particle Exact) 80 3
       (Scenario.boot Scenario.quits) (born p')
       ltac:(reflexivity) Sim_rand_range ltac:(lia) ltac:(lia)
       ltac:(discriminate) (Rle_refl _)) as [A _].
  exact A.
Defined.
